(** * go-hdb: protocol engine and session machinery

    A shallow embedding of the parts of the go-hdb driver that the
    specification makes claims about, and the proofs of those claims.

    Conventions.
    - A Go fixed-width integer is a [Z]; every conversion between widths is
      written out with [wrap] (signed) or [Z.modulo] (unsigned).
    - A Go [[]byte] and a Go [string] are both a [list byte].
    - A Go function that returns [(T, error)] returns a pair or a sum; a Go
      [panic] is the [Panic] outcome.
    - Calls that leave the process (socket, server) are parameters of a
      Section, or a script of replies threaded through the code. *)

From Stdlib Require Import String Ascii DecimalString.
From Stdlib.Strings Require Import Byte.
From Stdlib Require Import ZArith List Bool Lia.
Import ListNotations.
Open Scope string_scope.
Open Scope list_scope.
Open Scope Z_scope.

(** * Part I: the embedding *)

(** ** Go integers *)

Module GoInt.

Definition MaxInt16  : Z := 32767.
Definition MaxUint16 : Z := 65535.
Definition MaxInt32  : Z := 2147483647.
Definition MaxInt64  : Z := 9223372036854775807.

(** [wrap w z] is the conversion of [z] to the signed [w]-bit type. *)
Definition wrap (w : Z) (z : Z) : Z :=
  (z + 2 ^ (w - 1)) mod 2 ^ w - 2 ^ (w - 1).

Definition int8  (z : Z) : Z := wrap 8 z.
Definition int16 (z : Z) : Z := wrap 16 z.
Definition int32 (z : Z) : Z := wrap 32 z.
Definition int64 (z : Z) : Z := wrap 64 z.
Definition uint8  (z : Z) : Z := z mod 2 ^ 8.
Definition uint16 (z : Z) : Z := z mod 2 ^ 16.

Definition in_signed (w : Z) (z : Z) : Prop :=
  - 2 ^ (w - 1) <= z < 2 ^ (w - 1).

End GoInt.

(** ** Outcomes of Go calls *)

(** A Go [error] value: the text its [Error()] method returns. *)
Definition error := string.

Inductive outcome (A : Type) : Type :=
| Ret (a : A)
| Panic (msg : string).
Arguments Ret {A} a.
Arguments Panic {A} msg.

(** [fmt.Sprintf("%d", z)]. *)
Definition fmt_d (z : Z) : string := NilZero.string_of_int (Z.to_int z).

(** ** Bytes *)

Module Bytes.

Definition Z_of_byte (b : byte) : Z := Z.of_N (Byte.to_N b).

Definition byte_of_Z (z : Z) : byte :=
  match Byte.of_N (Z.to_N (z mod 256)) with
  | Some b => b
  | None => x00
  end.

(** The [n] low bytes of [z], least significant first. *)
Fixpoint le_bytes (n : nat) (z : Z) : list byte :=
  match n with
  | O => []
  | S n' => byte_of_Z z :: le_bytes n' (z / 256)
  end.

(** The unsigned value of a little-endian byte run. *)
Fixpoint le_value (bs : list byte) : Z :=
  match bs with
  | [] => 0
  | b :: bs' => Z_of_byte b + 256 * le_value bs'
  end.

End Bytes.

(** ** Package encoding: the byte codec *)

Module Encoding.
Import GoInt Bytes.

(** Modelled from the spec: package [encoding] (the Encoder, the Decoder and
    the field-size constants) is used by the sources at hand but is not among
    them.  The codec gives typed reads and writes of 8, 16, 32 and 64-bit
    integers, little-endian unless a byte order is passed, IEEE-754 doubles
    and raw byte runs.  The decoder latches its first error; from then on
    every operation is a no-op that returns the zero value. *)

Definition BooleanFieldSize  : Z := 1.
Definition TinyintFieldSize  : Z := 1.
Definition SmallintFieldSize : Z := 2.
Definition IntegerFieldSize  : Z := 4.
Definition BigintFieldSize   : Z := 8.
Definition DoubleFieldSize   : Z := 8.

(** The encoder is the byte sequence written so far. *)
Record Encoder : Type := mkEncoder { written : list byte }.

Definition NewEncoder : Encoder := mkEncoder [].

Definition eBytes (e : Encoder) (p : list byte) : Encoder :=
  mkEncoder (written e ++ p).
Definition eByte (e : Encoder) (b : Z) : Encoder := eBytes e [byte_of_Z b].
Definition eBool (e : Encoder) (v : bool) : Encoder :=
  eByte e (if v then 1 else 0).
Definition eInt8 (e : Encoder) (z : Z) : Encoder := eByte e z.
Definition eInt16 (e : Encoder) (z : Z) : Encoder := eBytes e (le_bytes 2 z).
Definition eInt32 (e : Encoder) (z : Z) : Encoder := eBytes e (le_bytes 4 z).
Definition eInt64 (e : Encoder) (z : Z) : Encoder := eBytes e (le_bytes 8 z).
(** A float64 is carried as its IEEE-754 bit pattern ([math.Float64bits]). *)
Definition eFloat64 (e : Encoder) (bits : Z) : Encoder :=
  eBytes e (le_bytes 8 bits).
(** [Uint16ByteOrder(v, binary.BigEndian)]. *)
Definition eUint16BigEndian (e : Encoder) (z : Z) : Encoder :=
  eBytes e (rev (le_bytes 2 z)).

(** The decoder is the input still to be read and the latched error. *)
Record Decoder : Type := mkDecoder { pending : list byte; derr : option error }.

Definition NewDecoder (input : list byte) : Decoder := mkDecoder input None.

(** [readFull]: fill a buffer of [n] bytes, or latch the error. *)
Definition readFull (d : Decoder) (n : nat) : Decoder * option (list byte) :=
  match derr d with
  | Some _ => (d, None)
  | None =>
      if (n <=? length (pending d))%nat
      then (mkDecoder (skipn n (pending d)) None, Some (firstn n (pending d)))
      else (mkDecoder [] (Some (match pending d with
                                | [] => "EOF"
                                | _ => "unexpected EOF"
                                end)%string), None)
  end.

Definition readUnsigned (d : Decoder) (n : nat) : Decoder * Z :=
  match readFull d n with
  | (d', Some bs) => (d', le_value bs)
  | (d', None) => (d', 0)
  end.

Definition dByte (d : Decoder) : Decoder * Z := readUnsigned d 1.
Definition dBool (d : Decoder) : Decoder * bool :=
  let (d', b) := dByte d in (d', negb (b =? 0)).
Definition dInt8 (d : Decoder) : Decoder * Z :=
  let (d', b) := dByte d in (d', int8 b).
Definition dInt16 (d : Decoder) : Decoder * Z :=
  let (d', v) := readUnsigned d 2 in (d', int16 v).
Definition dInt32 (d : Decoder) : Decoder * Z :=
  let (d', v) := readUnsigned d 4 in (d', int32 v).
Definition dInt64 (d : Decoder) : Decoder * Z :=
  let (d', v) := readUnsigned d 8 in (d', int64 v).
Definition dFloat64 (d : Decoder) : Decoder * Z := readUnsigned d 8.
Definition dUint16BigEndian (d : Decoder) : Decoder * Z :=
  match readFull d 2 with
  | (d', Some bs) => (d', le_value (rev bs))
  | (d', None) => (d', 0)
  end.
(** [Bytes(p)] with [len(p) = n]: [p] keeps its zeroes when the read fails. *)
Definition dBytes (d : Decoder) (n : nat) : Decoder * list byte :=
  match readFull d n with
  | (d', Some bs) => (d', bs)
  | (d', None) => (d', repeat x00 n)
  end.

Definition eUint32 (e : Encoder) (z : Z) : Encoder := eBytes e (le_bytes 4 z).
Definition eZeroes (e : Encoder) (n : nat) : Encoder := eBytes e (repeat x00 n).

Definition dUint32 (d : Decoder) : Decoder * Z := readUnsigned d 4.
(** [Uint32ByteOrder(binary.BigEndian)]. *)
Definition dUint32BigEndian (d : Decoder) : Decoder * Z :=
  match readFull d 4 with
  | (d', Some bs) => (d', le_value (rev bs))
  | (d', None) => (d', 0)
  end.
(** [Skip(n)]: the bytes are dropped. *)
Definition dSkip (d : Decoder) (n : nat) : Decoder := fst (readFull d n).

(** [Error()]: the latched error. *)
Definition dError (d : Decoder) : option error := derr d.

End Encoding.

(** ** Package auth: the size of a nested parameter block *)

Module Auth.
Import GoInt Bytes Encoding.

Definition maxSubPrmsSize1ByteLen : Z := 245.
Definition subPrmsSize2ByteIndicator : Z := 255.

(** [subPrmsSize] is a Go [int]. *)
Definition fieldSize (s : Z) : Z :=
  if maxSubPrmsSize1ByteLen <? s then 3 else 1.

Definition encode (s : Z) (e : Encoder) : Encoder * option error :=
  if s <=? maxSubPrmsSize1ByteLen then
    (eByte e (uint8 s), None)
  else if s <=? MaxUint16 then
    (eUint16BigEndian (eByte e subPrmsSize2ByteIndicator) (uint16 s), None)
  else
    (e, Some ("invalid subparameter size " ++ fmt_d s ++ " - maximum "
              ++ fmt_d 42)%string).

Definition decode (d : Decoder) : Decoder * outcome Z :=
  let (d1, b) := dByte d in
  if b <=? maxSubPrmsSize1ByteLen then (d1, Ret b)
  else if b =? subPrmsSize2ByteIndicator then
    let (d2, v) := dUint16BigEndian d1 in (d2, Ret v)
  else
    (d1, Panic ("invalid sub parameter size indicator " ++ fmt_d b)%string).

(** [Decoder.subSize]. *)
Definition subSize (d : Decoder) : Decoder * outcome Z := decode d.

End Auth.

(** ** Package protocol: part header, parameter fields, option types *)

Module Protocol.
Import GoInt Bytes Encoding.

(** *** Part header *)

Definition partHeaderSize : Z := 16.
Definition bigNumArgInd : Z := -1.

(** [MaxNumArg] is the maximum number of arguments allowed in a part. *)
Definition MaxNumArg : Z := MaxInt32.

Record PartHeader : Type := mkPartHeader {
  PartKind : Z;          (* int8 *)
  PartAttributes : Z;    (* int8 *)
  argumentCount : Z;     (* int16 *)
  bigArgumentCount : Z;  (* int32 *)
  bufferLength : Z;      (* int32 *)
  bufferSize : Z         (* int32 *)
}.

Definition withNumArg (h : PartHeader) (ac bac : Z) : PartHeader :=
  mkPartHeader (PartKind h) (PartAttributes h) ac bac
               (bufferLength h) (bufferSize h).

(** [numArg] is a Go [int]; the [default] branch of the switch is taken when
    no case holds. *)
Definition setNumArg (h : PartHeader) (numArg : Z) : PartHeader * option error :=
  if numArg <=? MaxInt16 then
    (withNumArg h (int16 numArg) 0, None)
  else if numArg <=? MaxInt32 then
    (withNumArg h bigNumArgInd (int32 numArg), None)
  else
    (h, Some ("maximum number of arguments " ++ fmt_d numArg ++ " exceeded")%string).

Definition numArg (h : PartHeader) : Z :=
  if argumentCount h =? bigNumArgInd then bigArgumentCount h
  else argumentCount h.

(** *** Parameter fields *)

Definition poMandatory : Z := 1.
Definition poOptional  : Z := 2.
Definition poDefault   : Z := 4.

(** The test [parameterOptions.String] applies to each flag:
    [(k & option) != 0]. *)
Definition hasOption (k option : Z) : bool := negb (Z.land k option =? 0).

Definition PmIn    : Z := 1.
Definition pmInout : Z := 2.
Definition PmOut   : Z := 4.

(** The field type [ft] is derived from [TC], [length] and [fraction] and is
    left out. *)
Record ParameterField : Type := mkParameterField {
  FieldName : list byte;
  Offset : Z;            (* uint32 *)
  length : Z;            (* int16 *)
  fraction : Z;          (* int16 *)
  parameterOptions : Z;  (* int8 *)
  TC : Z;                (* TypeCode *)
  Mode : Z               (* int8 *)
}.

Definition Nullable (f : ParameterField) : bool :=
  parameterOptions f =? poOptional.

Definition In (f : ParameterField) : bool :=
  (Mode f =? pmInout) || (Mode f =? PmIn).

Definition Out (f : ParameterField) : bool :=
  (Mode f =? pmInout) || (Mode f =? PmOut).

(** [ParameterField.decode], up to the field type. *)
Definition decodeField (d : Decoder) : Decoder * ParameterField :=
  let (d1, po) := dInt8 d in
  let (d2, tc) := dInt8 d1 in
  let (d3, mode) := dInt8 d2 in
  let (d4, _) := dBytes d3 1 in
  let (d5, ofs) := readUnsigned d4 4 in
  let (d6, len) := dInt16 d5 in
  let (d7, frac) := dInt16 d6 in
  let (d8, _) := dBytes d7 4 in
  (d8, mkParameterField [] ofs len frac po tc mode).

(** *** Connect option types *)

(** The dynamic type and value of an [interface{}] holding an option. *)
Inductive value : Type :=
| VBool (b : bool)
| VInt8 (z : Z)
| VInt32 (z : Z)
| VInt64 (z : Z)
| VFloat64 (bits : Z)          (* the IEEE-754 bit pattern *)
| VString (s : list byte)
| VBytes (b : list byte)
| VOther (typeName : string).  (* any other dynamic type *)

Inductive optType : Type :=
| optBooleanType
| optTinyintType
| optIntegerType
| optBigintType
| optDoubleType
| optStringType
| optBstringType.

Definition typeName (v : value) : string :=
  match v with
  | VBool _ => "bool"
  | VInt8 _ => "int8"
  | VInt32 _ => "int32"
  | VInt64 _ => "int64"
  | VFloat64 _ => "float64"
  | VString _ => "string"
  | VBytes _ => "[]uint8"
  | VOther t => t
  end.

(** A failed type assertion [v.(T)]. *)
Definition assertPanic {A : Type} (v : value) (want : string) : outcome A :=
  Panic ("interface conversion: interface {} is " ++ typeName v ++ ", not "
         ++ want)%string.

Definition getOptType (v : value) : outcome optType :=
  match v with
  | VBool _ => Ret optBooleanType
  | VInt8 _ => Ret optTinyintType
  | VInt32 _ => Ret optIntegerType
  | VInt64 _ => Ret optBigintType
  | VFloat64 _ => Ret optDoubleType
  | VString _ => Ret optStringType
  | VBytes _ => Ret optBstringType
  | VOther t => Panic ("type " ++ t ++ " not implemented")%string
  end.

Definition len (b : list byte) : Z := Z.of_nat (List.length b).

Definition size (t : optType) (v : value) : outcome Z :=
  match t with
  | optBooleanType => Ret BooleanFieldSize
  | optTinyintType => Ret TinyintFieldSize
  | optIntegerType => Ret IntegerFieldSize
  | optBigintType => Ret BigintFieldSize
  | optDoubleType => Ret DoubleFieldSize
  | optStringType =>
      match v with VString s => Ret (2 + len s) | _ => assertPanic v "string" end
  | optBstringType =>
      match v with VBytes b => Ret (2 + len b) | _ => assertPanic v "[]uint8" end
  end.

Definition encode (t : optType) (e : Encoder) (v : value) : outcome Encoder :=
  match t, v with
  | optBooleanType, VBool b => Ret (eBool e b)
  | optBooleanType, _ => assertPanic v "bool"
  | optTinyintType, VInt8 z => Ret (eInt8 e z)
  | optTinyintType, _ => assertPanic v "int8"
  | optIntegerType, VInt32 z => Ret (eInt32 e z)
  | optIntegerType, _ => assertPanic v "int32"
  | optBigintType, VInt64 z => Ret (eInt64 e z)
  | optBigintType, _ => assertPanic v "int64"
  | optDoubleType, VFloat64 bits => Ret (eFloat64 e bits)
  | optDoubleType, _ => assertPanic v "float64"
  | optStringType, VString s => Ret (eBytes (eInt16 e (int16 (len s))) s)
  | optStringType, _ => assertPanic v "string"
  | optBstringType, VBytes b => Ret (eBytes (eInt16 e (int16 (len b))) b)
  | optBstringType, _ => assertPanic v "[]uint8"
  end.

(** [make([]byte, l)] panics on a negative length. *)
Definition decodeRun (d : Decoder) : Decoder * outcome (list byte) :=
  let (d1, l) := dInt16 d in
  if l <? 0 then (d1, Panic "runtime error: makeslice: len out of range")
  else let (d2, b) := dBytes d1 (Z.to_nat l) in (d2, Ret b).

Definition decode (t : optType) (d : Decoder) : Decoder * outcome value :=
  match t with
  | optBooleanType => let (d', b) := dBool d in (d', Ret (VBool b))
  | optTinyintType => let (d', z) := dInt8 d in (d', Ret (VInt8 z))
  | optIntegerType => let (d', z) := dInt32 d in (d', Ret (VInt32 z))
  | optBigintType => let (d', z) := dInt64 d in (d', Ret (VInt64 z))
  | optDoubleType => let (d', z) := dFloat64 d in (d', Ret (VFloat64 z))
  | optStringType =>
      match decodeRun d with
      | (d', Ret b) => (d', Ret (VString b))
      | (d', Panic m) => (d', Panic m)
      end
  | optBstringType =>
      match decodeRun d with
      | (d', Ret b) => (d', Ret (VBytes b))
      | (d', Panic m) => (d', Panic m)
      end
  end.

(** The values of the option types the driver supports, within the ranges of
    their Go types; a string or byte slice must fit the int16 length
    prefix. *)
Definition supported (v : value) : Prop :=
  match v with
  | VBool _ => True
  | VInt8 z => in_signed 8 z
  | VInt32 z => in_signed 32 z
  | VInt64 z => in_signed 64 z
  | VFloat64 bits => 0 <= bits < 2 ^ 64
  | VString s => len s <= MaxInt16
  | VBytes b => len b <= MaxInt16
  | VOther _ => False
  end.

End Protocol.

(** ** Package driver: connection attributes *)

Module ConnAttrs.
Import GoInt.

(** [time.Duration] counts nanoseconds in an int64. *)
Definition Second : Z := 1000000000.

Definition defaultBufferSize   : Z := 16276.
Definition defaultBulkSize     : Z := 10000.
Definition defaultTimeout      : Z := 300 * Second.
Definition defaultTCPKeepAlive : Z := 15 * Second.

Definition minTimeout  : Z := 0 * Second.
Definition minBulkSize : Z := 1.
Definition maxBulkSize : Z := Protocol.MaxNumArg.

Definition defaultFetchSize    : Z := 128.
Definition defaultLobChunkSize : Z := 8192.
Definition DfvLevel8           : Z := 8.
Definition defaultDfv          : Z := DfvLevel8.
Definition defaultLegacy       : bool := false.

Definition minFetchSize    : Z := 1.
Definition minLobChunkSize : Z := 128.
Definition maxLobChunkSize : Z := Z.shiftl 1 14.

(** The attributes with a scalar value; the TLS configuration, the dialer,
    the session variables and the CESU-8 factories are left out.  The
    read/write mutex serialises the accessors; each setter below is the body
    that runs with the lock held. *)
Record connAttrs : Type := mkConnAttrs {
  _host : string;
  _timeout : Z;
  _pingInterval : Z;
  _bufferSize : Z;
  _bulkSize : Z;
  _tcpKeepAlive : Z;
  _defaultSchema : string;
  _applicationName : string;
  _locale : string;
  _fetchSize : Z;
  _lobChunkSize : Z;
  _dfv : Z;
  _legacy : bool
}.

Definition newConnAttrs (defaultApplicationName : string) : connAttrs :=
  mkConnAttrs "" defaultTimeout 0 defaultBufferSize defaultBulkSize
              defaultTCPKeepAlive "" defaultApplicationName ""
              defaultFetchSize defaultLobChunkSize defaultDfv defaultLegacy.

Definition with_timeout (a : connAttrs) (v : Z) : connAttrs :=
  mkConnAttrs (_host a) v (_pingInterval a) (_bufferSize a) (_bulkSize a)
              (_tcpKeepAlive a) (_defaultSchema a) (_applicationName a)
              (_locale a) (_fetchSize a) (_lobChunkSize a) (_dfv a) (_legacy a).

Definition with_bulkSize (a : connAttrs) (v : Z) : connAttrs :=
  mkConnAttrs (_host a) (_timeout a) (_pingInterval a) (_bufferSize a) v
              (_tcpKeepAlive a) (_defaultSchema a) (_applicationName a)
              (_locale a) (_fetchSize a) (_lobChunkSize a) (_dfv a) (_legacy a).

Definition with_fetchSize (a : connAttrs) (v : Z) : connAttrs :=
  mkConnAttrs (_host a) (_timeout a) (_pingInterval a) (_bufferSize a)
              (_bulkSize a) (_tcpKeepAlive a) (_defaultSchema a)
              (_applicationName a) (_locale a) v (_lobChunkSize a) (_dfv a)
              (_legacy a).

Definition with_lobChunkSize (a : connAttrs) (v : Z) : connAttrs :=
  mkConnAttrs (_host a) (_timeout a) (_pingInterval a) (_bufferSize a)
              (_bulkSize a) (_tcpKeepAlive a) (_defaultSchema a)
              (_applicationName a) (_locale a) (_fetchSize a) v (_dfv a)
              (_legacy a).

Definition with_dfv (a : connAttrs) (v : Z) : connAttrs :=
  mkConnAttrs (_host a) (_timeout a) (_pingInterval a) (_bufferSize a)
              (_bulkSize a) (_tcpKeepAlive a) (_defaultSchema a)
              (_applicationName a) (_locale a) (_fetchSize a)
              (_lobChunkSize a) v (_legacy a).

Definition _setTimeout (a : connAttrs) (timeout : Z) : connAttrs :=
  let timeout := if timeout <? minTimeout then minTimeout else timeout in
  with_timeout a timeout.

Definition setTimeout (a : connAttrs) (timeout : Z) : connAttrs :=
  _setTimeout a timeout.

Definition _setBulkSize (a : connAttrs) (bulkSize : Z) : connAttrs :=
  let bulkSize :=
    if bulkSize <? minBulkSize then minBulkSize
    else if maxBulkSize <? bulkSize then maxBulkSize
    else bulkSize in
  with_bulkSize a bulkSize.

Definition setBulkSize (a : connAttrs) (bulkSize : Z) : connAttrs :=
  _setBulkSize a bulkSize.

Definition _setFetchSize (a : connAttrs) (fetchSize : Z) : connAttrs :=
  let fetchSize := if fetchSize <? minFetchSize then minFetchSize else fetchSize in
  with_fetchSize a fetchSize.

Definition setFetchSize (a : connAttrs) (fetchSize : Z) : connAttrs :=
  _setFetchSize a fetchSize.

Definition setLobChunkSize (a : connAttrs) (lobChunkSize : Z) : connAttrs :=
  let lobChunkSize :=
    if lobChunkSize <? minLobChunkSize then minLobChunkSize
    else if maxLobChunkSize <? lobChunkSize then maxLobChunkSize
    else lobChunkSize in
  with_lobChunkSize a lobChunkSize.

Section Dfv.
(** [p.IsSupportedDfv]: the table of supported levels is declared in a file
    that is not at hand; the setter is modelled for any such table. *)
Variable IsSupportedDfv : Z -> bool.

Definition setDfv (a : connAttrs) (dfv : Z) : connAttrs :=
  let dfv := if negb (IsSupportedDfv dfv) then defaultDfv else dfv in
  with_dfv a dfv.

End Dfv.

(** The clamp of [v] to the interval from [lo] to [hi]. *)
Definition clamp (lo hi v : Z) : Z := Z.max lo (Z.min hi v).

End ConnAttrs.

(** ** Package driver: the connection lock *)

Module ConnLock.

Definition lrNestedQuery : Z := 1.

Definition ErrNestedQuery : error := "nested sql queries are not supported".

(** [connMu] is true while the connection mutex is held.  The mutex [mu]
    is held for the whole of [tryLock], so two [tryLock] calls never
    overlap: each is one step on this state. *)
Record connLock : Type := mkConnLock {
  lockReason : Z;   (* int64, atomic *)
  connMu : bool
}.

(** What a call that may have to wait does: it returns, it waits for the
    connection mutex, or the runtime stops the process. *)
Inductive attempt (A : Type) : Type :=
| Returns (l : connLock) (a : A)
| Waits
| Crashes (msg : string).
Arguments Returns {A} l a.
Arguments Waits {A}.
Arguments Crashes {A} msg.

Definition tryLock (l : connLock) (reason : Z) : attempt (option error) :=
  if lockReason l =? lrNestedQuery then Returns l (Some ErrNestedQuery)
  else if connMu l then Waits
  else Returns (mkConnLock reason true) None.

Definition lock (l : connLock) : attempt unit :=
  if connMu l then Waits else Returns (mkConnLock (lockReason l) true) tt.

(** Unlocking a mutex that is not locked is a fatal runtime error. *)
Definition unlock (l : connLock) : outcome connLock :=
  if connMu l then Ret (mkConnLock 0 false)
  else Panic "fatal error: sync: unlock of unlocked mutex".

(** The locking skeleton of the query operations ([conn.QueryContext],
    [stmt.QueryContext], [callStmt.QueryContext]): the lock is taken with
    the nested-query reason; when the rows returned implement [onCloser]
    the unlock is handed to the rows' close, otherwise the deferred
    function unlocks before the operation returns. *)
Definition queryLocking (l : connLock) (hasRowsCloser : bool)
  : attempt (option error) :=
  match tryLock l lrNestedQuery with
  | Returns l1 None =>
      if hasRowsCloser then Returns l1 None
      else match unlock l1 with
           | Ret l2 => Returns l2 None
           | Panic m => Crashes m
           end
  | other => other
  end.

(** The locking skeleton of every other operation that uses [tryLock]
    ([Ping], [PrepareContext], [BeginTx], [ExecContext], [DBConnectInfo],
    [stmt.exec], [callStmt.ExecContext]): [tryLock(0)], the body, and the
    deferred unlock. *)
Definition execLocking (l : connLock) : attempt (option error) :=
  match tryLock l 0 with
  | Returns l1 None =>
      match unlock l1 with
      | Ret l2 => Returns l2 None
      | Panic m => Crashes m
      end
  | other => other
  end.

(** A series of attempts, each with its own reason; the errors of those
    that returned, and the final state. *)
Fixpoint attempts (l : connLock) (reasons : list Z) : connLock * list (option error) :=
  match reasons with
  | [] => (l, [])
  | r :: rs =>
      match tryLock l r with
      | Returns l' e => let (l'', es) := attempts l' rs in (l'', e :: es)
      | _ => (l, [])
      end
  end.

End ConnLock.

(** ** Package driver: the database connection *)

Module DbConn.
Import ConnLock.

Definition ErrBadConn : error := "driver: bad connection".
Definition errCancelled : error := "db connection is canceled".
Definition errClosed : error := "db connection is closed".

(** The calls made on the wrapped [net.Conn]. *)
Inductive sockCall : Type :=
| SetReadDeadline
| SockRead (n : Z)
| SetWriteDeadline
| SockWrite (b : list byte)
| SockClose.

(** What the socket answers to the calls of one [Read] or [Write]. *)
Record sockReply : Type := mkSockReply {
  deadlineErr : option error;
  ioCount : Z;
  ioErr : option error
}.

(** [calls] records the socket calls made so far; metrics are left out. *)
Record dbConn : Type := mkDbConn {
  cancelled : Z;              (* int32, atomic *)
  timeout : Z;
  lastError : option error;
  closed : bool;
  calls : list sockCall
}.

Definition cancel (c : dbConn) : dbConn :=
  mkDbConn 1 (timeout c) (Some errCancelled) (closed c) (calls c).

Definition close (c : dbConn) (closeErr : option error) : dbConn * option error :=
  (mkDbConn (cancelled c) (timeout c) (Some errClosed) true
            (calls c ++ [SockClose]), closeErr).

Definition Read (c : dbConn) (len_b : Z) (s : sockReply)
  : dbConn * (Z * option error) :=
  if cancelled c =? 1 then (c, (0, Some ErrBadConn))
  else
    match deadlineErr s with
    | Some e =>
        (mkDbConn (cancelled c) (timeout c) (Some e) (closed c)
                  (calls c ++ [SetReadDeadline]), (0, Some ErrBadConn))
    | None =>
        let calls' := calls c ++ [SetReadDeadline; SockRead len_b] in
        match ioErr s with
        | None =>
            (mkDbConn (cancelled c) (timeout c) (lastError c) (closed c) calls',
             (ioCount s, None))
        | Some e =>
            (mkDbConn (cancelled c) (timeout c) (Some e) (closed c) calls',
             (ioCount s, Some ErrBadConn))
        end
    end.

Definition Write (c : dbConn) (b : list byte) (s : sockReply)
  : dbConn * (Z * option error) :=
  if cancelled c =? 1 then (c, (0, Some ErrBadConn))
  else
    match deadlineErr s with
    | Some e =>
        (mkDbConn (cancelled c) (timeout c) (Some e) (closed c)
                  (calls c ++ [SetWriteDeadline]), (0, Some ErrBadConn))
    | None =>
        let calls' := calls c ++ [SetWriteDeadline; SockWrite b] in
        match ioErr s with
        | None =>
            (mkDbConn (cancelled c) (timeout c) (lastError c) (closed c) calls',
             (ioCount s, None))
        | Some e =>
            (mkDbConn (cancelled c) (timeout c) (Some e) (closed c) calls',
             (ioCount s, Some ErrBadConn))
        end
    end.

(** The last error of a [conn]: an hdb error (of type [Error]) or any
    other error. *)
Inductive connError : Type :=
| HdbError (text : error)
| OtherError (text : error).

Record conn : Type := mkConn {
  lk : connLock;
  db : dbConn;
  connLastError : option connError;
  inTx : bool
}.

Definition isBad (c : conn) : bool :=
  match lastError (db c) with
  | Some _ => true
  | None =>
      match connLastError c with
      | Some (OtherError _) => true
      | _ => false
      end
  end.

(** [IsValid]: lock, [!isBad()], deferred unlock. *)
Definition IsValid (c : conn) : attempt bool :=
  match lock (lk c) with
  | Returns l1 tt =>
      match unlock l1 with
      | Ret l2 => Returns l2 (negb (isBad c))
      | Panic m => Crashes m
      end
  | Waits => Waits
  | Crashes m => Crashes m
  end.

(** What may happen to a connection after it was cancelled: reads and
    writes through the buffered reader and writer, a further cancel, the
    close of the connection, and the assignments to [c.lastError] at the
    end of each operation. *)
Inductive step : Type :=
| DoRead (len_b : Z) (s : sockReply)
| DoWrite (b : list byte) (s : sockReply)
| DoCancel
| DoClose (closeErr : option error)
| SetLastError (e : option connError)
| SetLock (l : connLock).

Definition run1 (c : conn) (st : step) : conn :=
  match st with
  | DoRead n s => mkConn (lk c) (fst (Read (db c) n s)) (connLastError c) (inTx c)
  | DoWrite b s => mkConn (lk c) (fst (Write (db c) b s)) (connLastError c) (inTx c)
  | DoCancel => mkConn (lk c) (cancel (db c)) (connLastError c) (inTx c)
  | DoClose e => mkConn (lk c) (fst (close (db c) e)) (connLastError c) (inTx c)
  | SetLastError e => mkConn (lk c) (db c) e (inTx c)
  | SetLock l => mkConn l (db c) (connLastError c) (inTx c)
  end.

Definition run (c : conn) (sts : list step) : conn := fold_left run1 sts c.

End DbConn.

(** ** Package driver: the data source name *)

Module Dsn.
Import GoInt.

Definition DSNDefaultSchema : string := "defaultSchema".
Definition DSNTimeout       : string := "timeout".
Definition DSNPingInterval  : string := "pingInterval".
Definition DSNTLSRootCAFile         : string := "TLSRootCAFile".
Definition DSNTLSServerName         : string := "TLSServerName".
Definition DSNTLSInsecureSkipVerify : string := "TLSInsecureSkipVerify".

Record TLSPrms : Type := mkTLSPrms {
  ServerName : string;
  InsecureSkipVerify : bool;
  RootCAFiles : list string
}.

Record DSN : Type := mkDSN {
  host : string;
  username : string;
  password : string;
  defaultSchema : string;
  timeout : Z;        (* time.Duration *)
  pingInterval : Z;   (* time.Duration *)
  tls : option TLSPrms
}.

(** *** What the code uses of the Go library *)

(** [*url.Error]: its [Unwrap] method returns [Err]. *)
Record urlError : Type := mkUrlError {
  Op : string;
  URL : string;
  Err : error
}.

Record Userinfo : Type := mkUserinfo {
  uiUsername : string;
  uiPassword : string;
  uiPasswordSet : bool
}.

(** The parts of a [*url.URL] that [parseDSN] reads.  [Query] is the map
    that [u.Query()] returns, as the list of its entries in the order in
    which the [range] statement visits them; Go leaves that order open. *)
Record Url : Type := mkUrl {
  Host : string;
  User : option Userinfo;
  Query : list (string * list string)
}.

Definition digit (c : ascii) : option Z :=
  let n := Z.of_nat (nat_of_ascii c) in
  if (48 <=? n) && (n <=? 57) then Some (n - 48) else None.

Fixpoint digits (str : string) (acc : Z) : option Z :=
  match str with
  | EmptyString => Some acc
  | String c rest =>
      match digit c with
      | Some d => digits rest (10 * acc + d)
      | None => None
      end
  end.

(** [strconv.Atoi]: an optional sign and decimal digits, within the range
    of [int]; [None] stands for its error. *)
Definition Atoi (str : string) : option Z :=
  let number (body : string) (neg : bool) : option Z :=
    match body with
    | EmptyString => None
    | _ =>
        match digits body 0 with
        | Some v =>
            let v := if neg then - v else v in
            if (- MaxInt64 - 1 <=? v) && (v <=? MaxInt64) then Some v else None
        | None => None
        end
    end in
  match str with
  | String "+"%char rest => number rest false
  | String "-"%char rest => number rest true
  | _ => number str false
  end.

(** [strconv.ParseBool]. *)
Definition ParseBool (str : string) : option bool :=
  if existsb (String.eqb str) ["1"; "t"; "T"; "TRUE"; "true"; "True"]
  then Some true
  else if existsb (String.eqb str) ["0"; "f"; "F"; "FALSE"; "false"; "False"]
  then Some false
  else None.

(** *** Parse errors *)

Record ParseError : Type := mkParseError {
  s : string;
  err : option urlError
}.

(** [ParseError.Error]: the text of the unwrapped nested error when there
    is one, the own text otherwise. *)
Definition Error (e : ParseError) : string :=
  match err e with
  | Some u => Err u
  | None => s e
  end.

Definition nlen (v : list string) : Z := Z.of_nat (List.length v).

Definition parameterNotSupportedError (k : string) : ParseError :=
  mkParseError ("parameter " ++ k ++ " is not supported") None.

Definition invalidNumberOfParametersError (k : string) (act exp : Z) : ParseError :=
  mkParseError ("invalid number of parameters for " ++ k ++ " " ++ fmt_d act
                ++ " - expected " ++ fmt_d exp) None.

Definition invalidNumberOfParametersRangeError (k : string) (act min max : Z)
  : ParseError :=
  mkParseError ("invalid number of parameters for " ++ k ++ " " ++ fmt_d act
                ++ " - expected " ++ fmt_d min ++ " - " ++ fmt_d max) None.

Definition invalidNumberOfParametersMinError (k : string) (act min : Z)
  : ParseError :=
  mkParseError ("invalid number of parameters for " ++ k ++ " " ++ fmt_d act
                ++ " - expected at least " ++ fmt_d min) None.

Definition parseError (k v : string) : ParseError :=
  mkParseError ("failed to parse " ++ k ++ ": " ++ v) None.

(** *** parseDSN *)

Definition with_defaultSchema (d : DSN) (v : string) : DSN :=
  mkDSN (host d) (username d) (password d) v (timeout d) (pingInterval d) (tls d).
Definition with_timeout (d : DSN) (v : Z) : DSN :=
  mkDSN (host d) (username d) (password d) (defaultSchema d) v (pingInterval d) (tls d).
Definition with_pingInterval (d : DSN) (v : Z) : DSN :=
  mkDSN (host d) (username d) (password d) (defaultSchema d) (timeout d) v (tls d).

(** [if dsn.tls == nil { dsn.tls = &TLSPrms{} }] followed by an update. *)
Definition with_tls (d : DSN) (f : TLSPrms -> TLSPrms) : DSN :=
  let t := match tls d with Some t => t | None => mkTLSPrms "" false [] end in
  mkDSN (host d) (username d) (password d) (defaultSchema d) (timeout d)
        (pingInterval d) (Some (f t)).

(** [time.Duration(t) * time.Second]. *)
Definition seconds (t : Z) : Z := int64 (t * ConnAttrs.Second).

Definition recognised (k : string) : bool :=
  existsb (String.eqb k)
    [DSNDefaultSchema; DSNTimeout; DSNPingInterval; DSNTLSServerName;
     DSNTLSInsecureSkipVerify; DSNTLSRootCAFile].

(** One iteration of the loop over the query parameters: the [switch k]. *)
Definition parseEntry (d : DSN) (k : string) (v : list string) : ParseError + DSN :=
  if (k =? DSNDefaultSchema)%string then
    match v with
    | [v0] => inr (with_defaultSchema d v0)
    | _ => inl (invalidNumberOfParametersError k (nlen v) 1)
    end
  else if (k =? DSNTimeout)%string then
    match v with
    | [v0] =>
        match Atoi v0 with
        | Some t => inr (with_timeout d (seconds t))
        | None => inl (parseError k v0)
        end
    | _ => inl (invalidNumberOfParametersError k (nlen v) 1)
    end
  else if (k =? DSNPingInterval)%string then
    match v with
    | [v0] =>
        match Atoi v0 with
        | Some t => inr (with_pingInterval d (seconds t))
        | None => inl (parseError k v0)
        end
    | _ => inl (invalidNumberOfParametersError k (nlen v) 1)
    end
  else if (k =? DSNTLSServerName)%string then
    match v with
    | [v0] =>
        inr (with_tls d (fun t =>
               mkTLSPrms v0 (InsecureSkipVerify t) (RootCAFiles t)))
    | _ => inl (invalidNumberOfParametersError k (nlen v) 1)
    end
  else if (k =? DSNTLSInsecureSkipVerify)%string then
    if 1 <? nlen v then inl (invalidNumberOfParametersRangeError k (nlen v) 0 1)
    else
      let parsed : string + bool :=
        match v with
        | v0 :: _ =>
            if negb (v0 =? "")%string then
              match ParseBool v0 with
              | Some b => inr b
              | None => inl v0
              end
            else inr true
        | [] => inr true
        end in
      match parsed with
      | inl v0 => inl (parseError k v0)
      | inr b =>
          inr (with_tls d (fun t => mkTLSPrms (ServerName t) b (RootCAFiles t)))
      end
  else if (k =? DSNTLSRootCAFile)%string then
    match v with
    | [] => inl (invalidNumberOfParametersMinError k (nlen v) 1)
    | _ =>
        inr (with_tls d (fun t =>
               mkTLSPrms (ServerName t) (InsecureSkipVerify t) v))
    end
  else
    inl (parameterNotSupportedError k).

(** [for k, v := range u.Query()]: the first error ends the loop. *)
Fixpoint parseQuery (q : list (string * list string)) (d : DSN) : ParseError + DSN :=
  match q with
  | [] => inr d
  | (k, v) :: q' =>
      match parseEntry d k v with
      | inl e => inl e
      | inr d' => parseQuery q' d'
      end
  end.

(** The DSN before the query parameters are read: the host, and the user
    name and password when the URL has user information. *)
Definition fromUrl (u : Url) : DSN :=
  match User u with
  | Some ui => mkDSN (Host u) (uiUsername ui) (uiPassword ui) "" 0 0 None
  | None => mkDSN (Host u) "" "" "" 0 0 None
  end.

Section Parse.
(** [url.Parse] of the Go library. *)
Variable url_Parse : string -> urlError + Url.

Definition parseDSN (str : string) : ParseError + DSN :=
  if (str =? "")%string then
    inl (mkParseError "invalid parameter - DSN is empty" None)
  else
    match url_Parse str with
    | inl e => inl (mkParseError "" (Some e))
    | inr u => parseQuery (Query u) (fromUrl u)
    end.

End Parse.

(** The keys of a query, in the order visited. *)
Definition keys (q : list (string * list string)) : list string := map fst q.

(** What [url.Parse] returns for two DSNs: [hdb://h?foo=1], and
    [hdb://h?timeout=x&foo=1] with the map of its query visited at
    [timeout] first. *)
Definition unknownKeyDSN : string := "hdb://h?foo=1".
Definition unknownKeyUrl : Url := mkUrl "h" None [("foo", ["1"])].
Definition twoKeysDSN : string := "hdb://h?timeout=x&foo=1".
Definition twoKeysUrl : Url :=
  mkUrl "h" None [("timeout", ["x"]); ("foo", ["1"])].
Definition sample_url_Parse (str : string) : urlError + Url :=
  if (str =? unknownKeyDSN)%string then inr unknownKeyUrl
  else if (str =? twoKeysDSN)%string then inr twoKeysUrl
  else inl (mkUrlError "parse" str "outside the sample").

End Dsn.

(** ** Package driver: execute, bulk and many *)

Module Exec.
Import GoInt.

(** [driver.Result] of the Go library, as far as the driver produces it:
    [driver.RowsAffected(n)] and [driver.ResultNoRows]. *)
Inductive Result : Type :=
| RowsAffected (n : Z)
| ResultNoRows.

(** The method [RowsAffected()] of a result. *)
Definition Result_RowsAffected (r : Result) : Z * option error :=
  match r with
  | RowsAffected n => (n, None)
  | ResultNoRows => (0, Some "no RowsAffected available after DDL statement")
  end.

Definition nilPanic {A : Type} : outcome A :=
  Panic "runtime error: invalid memory address or nil pointer dereference".

(** [l[from:to]] for indices within the list. *)
Definition slice {A : Type} (l : list A) (from to : Z) : list A :=
  firstn (Z.to_nat (to - from)) (skipn (Z.to_nat from) l).

Definition min (a b : Z) : Z := if a <? b then a else b.

Section Conn.
(** [arg] is a [driver.NamedValue]; [W] is the state of the connection and
    of the server behind it, and of the LOB readers the arguments point
    to. *)
Variable arg : Type.
Variable lob : Type.
Variable W : Type.

(** The type assertion of [arg.Value] to a pointer to [p.LobInDescr]. *)
Variable asLob : arg -> option lob.
(** [LobInDescr.FetchNext(chunkSize)]: reads the next chunk of the LOB and
    tells whether it was the last one. *)
Variable FetchNext : W -> lob -> Z -> W * (bool * option error).
(** [conn._exec(pr, nvargs, hasLob, commit)]: one Execute round trip, and
    the LOB writes that follow it.  A result is [nil] when an error is
    returned. *)
Variable _exec : W -> list arg -> bool -> bool -> W * (option Result * option error).

Variable lobChunkSize : Z.

Fixpoint fetchFirstLobChunkFrom (w : W) (nvargs : list arg) (hasNext : bool)
  : W * (bool * option error) :=
  match nvargs with
  | [] => (w, (hasNext, None))
  | a :: rest =>
      match asLob a with
      | Some lobInDescr =>
          let '(w1, (last, err)) := FetchNext w lobInDescr lobChunkSize in
          let hasNext := if negb last then true else hasNext in
          match err with
          | Some e => (w1, (hasNext, Some e))
          | None => fetchFirstLobChunkFrom w1 rest hasNext
          end
      | None => fetchFirstLobChunkFrom w rest hasNext
      end
  end.

Definition _fetchFirstLobChunk (w : W) (nvargs : list arg)
  : W * (bool * option error) :=
  fetchFirstLobChunkFrom w nvargs false.

Section ExecBulk.
Variable numColumns : Z.       (* len(pr.parameterFields) *)
Variable nvargs : list arg.
Variable commit : bool.

Definition numRows : Z := Z.quot (Z.of_nat (List.length nvargs)) numColumns.

(** The loop [for i := 0; i < numRows; i++] of [_execBulk], [rowsLeft]
    iterations from row [i]. *)
Fixpoint execBulkLoop (rowsLeft : nat) (i : Z) (w : W) (totRowsAffected lastFrom : Z)
  : W * outcome (option Result * option error) :=
  match rowsLeft with
  | O => (w, Ret (Some (RowsAffected totRowsAffected), None))
  | S rowsLeft' =>
      let from := i * numColumns in
      let to := from + numColumns in
      let '(w1, (hasNext, err)) := _fetchFirstLobChunk w (slice nvargs from to) in
      match err with
      | Some e => (w1, Ret (None, Some e))
      | None =>
          if hasNext || (i =? numRows - 1) then
            let '(w2, (r, err)) := _exec w1 (slice nvargs lastFrom to) true commit in
            match r with
            | None => (w2, nilPanic)
            | Some r =>
                let totRowsAffected :=
                  match Result_RowsAffected r with
                  | (rowsAffected, Some _) => int64 (totRowsAffected + rowsAffected)
                  | (_, None) => totRowsAffected
                  end in
                match err with
                | Some e => (w2, Ret (Some (RowsAffected totRowsAffected), Some e))
                | None => execBulkLoop rowsLeft' (i + 1) w2 totRowsAffected to
                end
            end
          else execBulkLoop rowsLeft' (i + 1) w1 totRowsAffected lastFrom
      end
  end.

(** [hasLob] is whether one of [pr.parameterFields] has a LOB type code. *)
Definition _execBulk (hasLob : bool) (w : W)
  : W * outcome (option Result * option error) :=
  if negb hasLob || (numColumns =? Z.of_nat (List.length nvargs)) then
    let (w1, r) := _exec w nvargs hasLob commit in (w1, Ret r)
  else
    execBulkLoop (Z.to_nat numRows) 0 w 0 0.

End ExecBulk.

End Conn.

Section Many.
Variable arg : Type.
Variable W : Type.

(** The interface [execManyer]: [fill] converts the rows from [startRow]
    up to [endRow] into the arguments of one package. *)
Record execManyer : Type := mkExecManyer {
  numRow : Z;
  fill : Z -> Z -> error + list arg
}.

(** [stmt.exec(ctx, nvargs)]: the connection lock, the bad-connection
    check, [_execBulk] on a worker and the wait for it or for the
    cancellation. *)
Variable exec : W -> list arg -> W * outcome (option Result * option error).

Variable numField : Z.   (* s.pr.numField() *)
Variable bulkSize : Z.   (* s.bulkSize *)
Variable variant : execManyer.

(** The loop [for p := 0; p < numPack; p++], [packs] iterations from
    package [p]. *)
Fixpoint execManyLoop (packs : nat) (p : Z) (w : W) (totalRowsAffected : Z)
  : W * outcome (Result * option error) :=
  match packs with
  | O => (w, Ret (RowsAffected totalRowsAffected, None))
  | S packs' =>
      let startRow := p * bulkSize in
      let endRow := min (startRow + bulkSize) (numRow variant) in
      match fill variant startRow endRow with
      | inl e => (w, Ret (RowsAffected totalRowsAffected, Some e))
      | inr nvargs =>
          match exec w nvargs with
          | (w1, Panic m) => (w1, Panic m)
          | (w1, Ret (_, Some e)) => (w1, Ret (RowsAffected totalRowsAffected, Some e))
          | (w1, Ret (None, None)) => (w1, nilPanic)
          | (w1, Ret (Some r, None)) =>
              let (n, err) := Result_RowsAffected r in
              let totalRowsAffected := int64 (totalRowsAffected + n) in
              match err with
              | Some e => (w1, Ret (RowsAffected totalRowsAffected, Some e))
              | None => execManyLoop packs' (p + 1) w1 totalRowsAffected
              end
          end
      end
  end.

Definition numPack : Z :=
  let numPack := Z.quot (numRow variant) bulkSize in
  if negb (Z.rem (numRow variant) bulkSize =? 0) then numPack + 1 else numPack.

(** [len_nvargs] is [len(s.nvargs)], the rows buffered by an earlier bulk
    call.  The argument buffer is [size] values long; a negative size
    panics in [make] or in the reslice. *)
Definition execMany (len_nvargs : Z) (w : W) : W * outcome (Result * option error) :=
  if negb (len_nvargs =? 0) then
    (w, Ret (ResultNoRows,
             Some ("execMany: not flushed entries: " ++ fmt_d len_nvargs ++ ")")%string))
  else
    let size := min (numRow variant * numField) (bulkSize * numField) in
    if size <? 0 then (w, Panic "runtime error: makeslice: len out of range")
    else if bulkSize =? 0 then (w, Panic "runtime error: integer divide by zero")
    else execManyLoop (Z.to_nat numPack) 0 w 0.

End Many.

Arguments numRow {arg} e.
Arguments fill {arg} e startRow endRow.
Arguments mkExecManyer {arg} numRow fill.

(** [execManyIntfList]: a list of rows of one column each, every row
    converted by [convertValue]. *)
Section IntfList.
Variable arg : Type.
Variable row : Type.
Variable convertValue : row -> error + arg.

Fixpoint fillRows (rows : list row) : error + list arg :=
  match rows with
  | [] => inr []
  | r :: rest =>
      match convertValue r with
      | inl e => inl e
      | inr a =>
          match fillRows rest with
          | inl e => inl e
          | inr l => inr (a :: l)
          end
      end
  end.

Definition execManyIntfList (em : list row) : execManyer arg :=
  mkExecManyer (Z.of_nat (List.length em))
               (fun startRow endRow => fillRows (slice em startRow endRow)).

End IntfList.

(** *** A scripted server *)

(** The server answers the successive Execute requests with [replies];
    [received] records the argument lists it was sent. *)
Record server (arg : Type) : Type := mkServer {
  replies : list (option Result * option error);
  received : list (list arg)
}.
Arguments mkServer {arg} replies received.
Arguments replies {arg} s.
Arguments received {arg} s.

Definition serve {arg : Type} (w : server arg) (nvargs : list arg)
  : server arg * (option Result * option error) :=
  match replies w with
  | [] => (mkServer [] (received w ++ [nvargs]), (None, Some DbConn.ErrBadConn))
  | r :: rs => (mkServer rs (received w ++ [nvargs]), r)
  end.

Definition serve_exec {arg : Type} (w : server arg) (nvargs : list arg)
  (hasLob commit : bool) : server arg * (option Result * option error) :=
  serve w nvargs.

Definition serve_stmt_exec {arg : Type} (w : server arg) (nvargs : list arg)
  : server arg * outcome (option Result * option error) :=
  let (w1, r) := serve w nvargs in (w1, Ret r).

Definition ok (n : Z) : option Result * option error := (Some (RowsAffected n), None).

(** An argument of the scripted runs: a LOB whose first chunk is or is not
    all of it, or a plain value. *)
Inductive sarg : Type :=
| LobArg (id : Z) (complete : bool)
| PlainArg (v : Z).

Definition sarg_asLob (a : sarg) : option bool :=
  match a with
  | LobArg _ complete => Some complete
  | PlainArg _ => None
  end.

Definition sarg_FetchNext (w : server sarg) (complete : bool) (chunkSize : Z)
  : server sarg * (bool * option error) :=
  (w, (complete, None)).

Fixpoint sum (l : list Z) : Z :=
  match l with
  | [] => 0
  | n :: l' => n + sum l'
  end.

End Exec.

(** ** Package driver: LOB download *)

Module Lob.
Import GoInt.

(** [p.LobOutDescr]; [lastData] is [descr.Opt.IsLastData()]. *)
Module LobOutDescr.
Record t : Type := mk {
  ID : Z;               (* locator id, uint64 *)
  lastData : bool;
  IsCharBased : bool;
  NumChar : Z;          (* int64 *)
  B : list byte
}.
End LobOutDescr.

(** [p.ReadLobRequest]. *)
Module ReadLobRequest.
Record t : Type := mk {
  ID : Z;
  Ofs : Z;              (* int64 *)
  ChunkSize : Z         (* int32 *)
}.
Definition zero : t := mk 0 0 0.
End ReadLobRequest.

(** [p.ReadLobReply]; [lastData] is [lobReply.Opt.IsLastData()]. *)
Module ReadLobReply.
Record t : Type := mk {
  ID : Z;
  lastData : bool;
  B : list byte
}.
Definition zero : t := mk 0 false [].
End ReadLobReply.

Definition len (b : list byte) : Z := Z.of_nat (List.length b).

(** *** Counting characters *)

(** The counter of a byte-based LOB. *)
Definition countBytes (b : list byte) : option (outcome (Z * option error)) :=
  Some (Ret (int64 (len b), None)).

(** Modelled from the spec: package [cesu8] is not among the sources at
    hand.  CESU-8 encodes a supplementary character as a surrogate pair,
    each surrogate in three bytes, six in total: [CESUMax] is 6. *)
Definition CESUMax : Z := 6.

Section CESU8.
(** [cesu8.FullRune(b)], and the size that [cesu8.DecodeRune(b)] returns. *)
Variable FullRune : list byte -> bool.
Variable DecodeRuneSize : list byte -> Z.

(** The loop [for len(b) > 0] of the counter of a character-based LOB.
    [None]: the fuel is used up, which a size of 0 would cause; a size
    outside the slice panics. *)
Fixpoint countCESU8From (fuel : nat) (b : list byte) (numChars : Z)
  : option (outcome (Z * option error)) :=
  match b with
  | [] => Some (Ret (numChars, None))
  | _ :: _ =>
      match fuel with
      | O => None
      | S fuel' =>
          if negb (FullRune b) then
            Some (Ret (0, Some "lob chunk consists of incomplete CESU-8 runes"))
          else
            let size := DecodeRuneSize b in
            if (size <? 0) || (len b <? size) then
              Some (Panic "runtime error: slice bounds out of range")
            else
              let numChars := int64 (numChars + 1) in
              let numChars :=
                if size =? CESUMax then int64 (numChars + 1) else numChars in
              countCESU8From fuel' (skipn (Z.to_nat size) b) numChars
      end
  end.

Definition countCESU8 (b : list byte) : option (outcome (Z * option error)) :=
  countCESU8From (List.length b) b 0.

End CESU8.

(** *** The download loop *)

Section Conn.
(** [W] is the state of the connection, of the server behind it and of the
    writer that receives the LOB. *)
Variable W : Type.
(** [wr.Write(b)]. *)
Variable wrWrite : W -> list byte -> W * option error.
(** One exchange: the request is written and the parts of the reply are
    read; [inr None] is a reply without a ReadLobReply part, which leaves
    [lobReply] as it was. *)
Variable roundTrip :
  W -> ReadLobRequest.t -> W * (error + option ReadLobReply.t).
Variable lobChunkSize : Z.   (* c.lobChunkSize *)
Variable countChars : list byte -> option (outcome (Z * option error)).

Definition chunkSize (numChar ofs : Z) : Z :=
  let chunkSize := int64 (numChar - ofs) in
  if int64 lobChunkSize <? chunkSize then int32 (int64 lobChunkSize)
  else int32 chunkSize.

Definition invalidLocator (got want : Z) : error :=
  ("internal error: invalid lob locator " ++ fmt_d got ++ " - expected "
   ++ fmt_d want)%string.

Section Descr.
Variable descr : LobOutDescr.t.

(** The loop [for !eof]; [None] when the fuel is used up before the last
    data arrives. *)
Fixpoint decodeLoop (fuel : nat) (w : W) (eof : bool) (ofs : Z)
  (lobRequest : ReadLobRequest.t) (lobReply : ReadLobReply.t)
  : W * option (outcome (option error)) :=
  if eof then (w, Some (Ret None))
  else
    match fuel with
    | O => (w, None)
    | S fuel' =>
        let lobRequest :=
          ReadLobRequest.mk
            (ReadLobRequest.ID lobRequest)
            (int64 (ReadLobRequest.Ofs lobRequest + ofs))
            (chunkSize (LobOutDescr.NumChar descr) ofs) in
        match roundTrip w lobRequest with
        | (w1, inl e) => (w1, Some (Ret (Some e)))
        | (w1, inr part) =>
            let lobReply := match part with Some r => r | None => lobReply end in
            if negb (ReadLobReply.ID lobReply =? ReadLobRequest.ID lobRequest) then
              (w1, Some (Ret (Some (invalidLocator (ReadLobReply.ID lobReply)
                                                   (ReadLobRequest.ID lobRequest)))))
            else
              match wrWrite w1 (ReadLobReply.B lobReply) with
              | (w2, Some e) => (w2, Some (Ret (Some e)))
              | (w2, None) =>
                  match countChars (ReadLobReply.B lobReply) with
                  | None => (w2, None)
                  | Some (Panic m) => (w2, Some (Panic m))
                  | Some (Ret (_, Some e)) => (w2, Some (Ret (Some e)))
                  | Some (Ret (ofs, None)) =>
                      decodeLoop fuel' w2 (ReadLobReply.lastData lobReply) ofs
                                 lobRequest lobReply
                  end
              end
        end
    end.

Definition _decodeLobs (fuel : nat) (w : W) : W * option (outcome (option error)) :=
  match wrWrite w (LobOutDescr.B descr) with
  | (w1, Some e) => (w1, Some (Ret (Some e)))
  | (w1, None) =>
      let lobRequest := ReadLobRequest.mk (LobOutDescr.ID descr) 0 0 in
      let eof := LobOutDescr.lastData descr in
      match countChars (LobOutDescr.B descr) with
      | None => (w1, None)
      | Some (Panic m) => (w1, Some (Panic m))
      | Some (Ret (_, Some e)) => (w1, Some (Ret (Some e)))
      | Some (Ret (ofs, None)) =>
          decodeLoop fuel w1 eof ofs lobRequest ReadLobReply.zero
      end
  end.

End Descr.
End Conn.

(** [conn.decodeLobs]: the counter follows [descr.IsCharBased]; for a
    character-based LOB the writer is the CESU-8 transformer in front of
    the caller's writer.  The close of a pipe writer at the end is left
    out. *)
Definition decodeLobs (W : Type)
  (wrWrite wrclWrite : W -> list byte -> W * option error)
  (roundTrip : W -> ReadLobRequest.t -> W * (error + option ReadLobReply.t))
  (lobChunkSize : Z)
  (FullRune : list byte -> bool) (DecodeRuneSize : list byte -> Z)
  (descr : LobOutDescr.t) (fuel : nat) (w : W)
  : W * option (outcome (option error)) :=
  if LobOutDescr.IsCharBased descr then
    _decodeLobs W wrclWrite roundTrip lobChunkSize
                (countCESU8 FullRune DecodeRuneSize) descr fuel w
  else
    _decodeLobs W wrWrite roundTrip lobChunkSize countBytes descr fuel w.

(** *** A scripted server *)

(** The server answers the successive requests with [replies]; [requests]
    records what it was sent and [output] what the writer received. *)
Record server : Type := mkServer {
  replies : list (error + option ReadLobReply.t);
  requests : list ReadLobRequest.t;
  output : list byte
}.

Definition serve (w : server) (rq : ReadLobRequest.t)
  : server * (error + option ReadLobReply.t) :=
  match replies w with
  | [] => (mkServer [] (requests w ++ [rq]) (output w), inl DbConn.ErrBadConn)
  | r :: rs => (mkServer rs (requests w ++ [rq]) (output w), r)
  end.

Definition collect (w : server) (b : list byte) : server * option error :=
  (mkServer (replies w) (requests w) (output w ++ b), None).

(** The request the claim describes after [received] characters of a LOB
    of [numChar] characters. *)
Definition claimedRequest (id lobChunkSize numChar received : Z) : ReadLobRequest.t :=
  ReadLobRequest.mk id received (Z.min lobChunkSize (numChar - received)).

End Lob.

(** ** Package protocol: message, segment and part headers on the wire *)

Module Framing.
Import GoInt Bytes Encoding Protocol.

(** *** Message header (32 bytes) *)

Record messageHeader : Type := mkMessageHeader {
  sessionID : Z;       (* int64 *)
  packetCount : Z;     (* int32 *)
  varPartLength : Z;   (* uint32 *)
  varPartSize : Z;     (* uint32 *)
  noOfSegm : Z         (* int16 *)
}.

Definition messageHeader_encode (h : messageHeader) (enc : Encoder)
  : Encoder * option error :=
  let enc := eInt64 enc (sessionID h) in
  let enc := eInt32 enc (packetCount h) in
  let enc := eUint32 enc (varPartLength h) in
  let enc := eUint32 enc (varPartSize h) in
  let enc := eInt16 enc (noOfSegm h) in
  let enc := eZeroes enc 10 in
  (enc, None).

Definition messageHeader_decode (dec : Decoder)
  : Decoder * messageHeader * option error :=
  let (d1, sid) := dInt64 dec in
  let (d2, pc) := dInt32 d1 in
  let (d3, vl) := dUint32 d2 in
  let (d4, vs) := dUint32 d3 in
  let (d5, ns) := dInt16 d4 in
  let d6 := dSkip d5 10 in
  (d6, mkMessageHeader sid pc vl vs ns, dError d6).

(** *** Segment header (24 bytes) *)

Definition segmentHeaderSize : Z := 24.

Definition skInvalid : Z := 0.
Definition skRequest : Z := 1.
Definition skReply   : Z := 2.
Definition skError   : Z := 5.

Record segmentHeader : Type := mkSegmentHeader {
  segmentLength : Z;    (* int32 *)
  segmentOfs : Z;       (* int32 *)
  noOfParts : Z;        (* int16 *)
  segmentNo : Z;        (* int16 *)
  segmentKind : Z;      (* int8 *)
  messageType : Z;      (* int8 *)
  commit : bool;
  commandOptions : Z;   (* int8 *)
  functionCode : Z      (* int16 *)
}.

Definition segmentHeader_encode (h : segmentHeader) (enc : Encoder)
  : Encoder * option error :=
  let enc := eInt32 enc (segmentLength h) in
  let enc := eInt32 enc (segmentOfs h) in
  let enc := eInt16 enc (noOfParts h) in
  let enc := eInt16 enc (segmentNo h) in
  let enc := eInt8 enc (int8 (segmentKind h)) in
  let enc :=
    if segmentKind h =? skRequest then
      let enc := eInt8 enc (int8 (messageType h)) in
      let enc := eBool enc (commit h) in
      let enc := eInt8 enc (int8 (commandOptions h)) in
      eZeroes enc 8
    else if segmentKind h =? skReply then
      let enc := eZeroes enc 1 in
      let enc := eInt16 enc (int16 (functionCode h)) in
      eZeroes enc 8
    else eZeroes enc 11 in
  (enc, None).

(** [decode] fills the header [h] it is called on: the fields that the
    segment kind does not carry keep the value they had. *)
Definition segmentHeader_decode (h : segmentHeader) (dec : Decoder)
  : Decoder * segmentHeader * option error :=
  let (d1, sl) := dInt32 dec in
  let (d2, so) := dInt32 d1 in
  let (d3, np) := dInt16 d2 in
  let (d4, sn) := dInt16 d3 in
  let (d5, sk) := dInt8 d4 in
  if sk =? skRequest then
    let (d6, mt) := dInt8 d5 in
    let (d7, c) := dBool d6 in
    let (d8, co) := dInt8 d7 in
    let d9 := dSkip d8 8 in
    (d9, mkSegmentHeader sl so np sn sk mt c co (functionCode h), dError d9)
  else if sk =? skReply then
    let d6 := dSkip d5 1 in
    let (d7, fc) := dInt16 d6 in
    let d8 := dSkip d7 8 in
    (d8, mkSegmentHeader sl so np sn sk (messageType h) (commit h)
                         (commandOptions h) fc, dError d8)
  else
    let d6 := dSkip d5 11 in
    (d6, mkSegmentHeader sl so np sn sk (messageType h) (commit h)
                         (commandOptions h) (functionCode h), dError d6).

(** *** Part attributes *)

Definition paLastPacket      : Z := 1.
Definition paNextPacket      : Z := 2.
Definition paFirstPacket     : Z := 4.
Definition paRowNotFound     : Z := 8.
Definition paResultsetClosed : Z := 16.

Definition ResultsetClosed (k : Z) : bool :=
  Z.land k paResultsetClosed =? paResultsetClosed.
Definition LastPacket (k : Z) : bool :=
  Z.land k paLastPacket =? paLastPacket.

(** *** Part header (16 bytes) *)

Definition PartHeader_encode (h : PartHeader) (enc : Encoder)
  : Encoder * option error :=
  let enc := eInt8 enc (int8 (PartKind h)) in
  let enc := eInt8 enc (int8 (PartAttributes h)) in
  let enc := eInt16 enc (argumentCount h) in
  let enc := eInt32 enc (bigArgumentCount h) in
  let enc := eInt32 enc (bufferLength h) in
  let enc := eInt32 enc (bufferSize h) in
  (enc, None).

Definition PartHeader_decode (dec : Decoder)
  : Decoder * PartHeader * option error :=
  let (d1, pk) := dInt8 dec in
  let (d2, pa) := dInt8 d1 in
  let (d3, ac) := dInt16 d2 in
  let (d4, bac) := dInt32 d3 in
  let (d5, bl) := dInt32 d4 in
  let (d6, bs) := dInt32 d5 in
  (d6, mkPartHeader pk pa ac bac bl bs, dError d6).

(** The fields of a header within the ranges of their Go types. *)
Definition messageHeader_wf (h : messageHeader) : Prop :=
  in_signed 64 (sessionID h) /\ in_signed 32 (packetCount h) /\
  0 <= varPartLength h < 2 ^ 32 /\ 0 <= varPartSize h < 2 ^ 32 /\
  in_signed 16 (noOfSegm h).

Definition segmentHeader_wf (h : segmentHeader) : Prop :=
  in_signed 32 (segmentLength h) /\ in_signed 32 (segmentOfs h) /\
  in_signed 16 (noOfParts h) /\ in_signed 16 (segmentNo h) /\
  in_signed 8 (segmentKind h) /\ in_signed 8 (messageType h) /\
  in_signed 8 (commandOptions h) /\ in_signed 16 (functionCode h).

Definition PartHeader_wf (h : PartHeader) : Prop :=
  in_signed 8 (PartKind h) /\ in_signed 8 (PartAttributes h) /\
  in_signed 16 (argumentCount h) /\ in_signed 32 (bigArgumentCount h) /\
  in_signed 32 (bufferLength h) /\ in_signed 32 (bufferSize h).

End Framing.

(** ** Package auth: the decoder of authentication parameters *)

Module AuthDecoder.
Import GoInt Bytes Encoding Auth.

(** [Decoder.NumPrm]: the number of parameters is an int16 on the wire. *)
Definition NumPrm (d : Decoder) (expected : Z) : Decoder * option error :=
  let (d1, numPrm) := dInt16 d in
  if negb (numPrm =? expected) then
    (d1, Some ("invalid number of parameters " ++ fmt_d numPrm
               ++ " - expected " ++ fmt_d expected)%string)
  else (d1, None).

(** [Decoder.bigUint32]: a size byte that must be 4, then a big-endian
    uint32 (the rounds of SCRAMPBKDF2SHA256). *)
Definition bigUint32 (d : Decoder) : Decoder * (Z * option error) :=
  let (d1, size) := dByte d in
  if negb (size =? IntegerFieldSize) then
    (d1, (0, Some ("invalid auth uint32 size " ++ fmt_d size
                   ++ " - expected " ++ fmt_d IntegerFieldSize)%string))
  else
    let (d2, v) := dUint32BigEndian d1 in (d2, (v, None)).

Definition checkAuthMethodType (mt expected : string) : option error :=
  if negb (mt =? expected)%string then
    Some ("invalid method " ++ mt ++ " - expected " ++ expected)%string
  else None.

End AuthDecoder.

(** ** Package driver: the other setters of the connection attributes *)

Module ConnAttrsOps.
Import GoInt ConnAttrs.

Definition setPingInterval (a : connAttrs) (d : Z) : connAttrs :=
  mkConnAttrs (_host a) (_timeout a) d (_bufferSize a) (_bulkSize a)
              (_tcpKeepAlive a) (_defaultSchema a) (_applicationName a)
              (_locale a) (_fetchSize a) (_lobChunkSize a) (_dfv a) (_legacy a).

Definition setBufferSize (a : connAttrs) (bufferSize : Z) : connAttrs :=
  mkConnAttrs (_host a) (_timeout a) (_pingInterval a) bufferSize (_bulkSize a)
              (_tcpKeepAlive a) (_defaultSchema a) (_applicationName a)
              (_locale a) (_fetchSize a) (_lobChunkSize a) (_dfv a) (_legacy a).

Definition setTCPKeepAlive (a : connAttrs) (tcpKeepAlive : Z) : connAttrs :=
  mkConnAttrs (_host a) (_timeout a) (_pingInterval a) (_bufferSize a)
              (_bulkSize a) tcpKeepAlive (_defaultSchema a) (_applicationName a)
              (_locale a) (_fetchSize a) (_lobChunkSize a) (_dfv a) (_legacy a).

Definition setDefaultSchema (a : connAttrs) (schema : string) : connAttrs :=
  mkConnAttrs (_host a) (_timeout a) (_pingInterval a) (_bufferSize a)
              (_bulkSize a) (_tcpKeepAlive a) schema (_applicationName a)
              (_locale a) (_fetchSize a) (_lobChunkSize a) (_dfv a) (_legacy a).

Definition setApplicationName (a : connAttrs) (name : string) : connAttrs :=
  mkConnAttrs (_host a) (_timeout a) (_pingInterval a) (_bufferSize a)
              (_bulkSize a) (_tcpKeepAlive a) (_defaultSchema a) name
              (_locale a) (_fetchSize a) (_lobChunkSize a) (_dfv a) (_legacy a).

Definition setLocale (a : connAttrs) (locale : string) : connAttrs :=
  mkConnAttrs (_host a) (_timeout a) (_pingInterval a) (_bufferSize a)
              (_bulkSize a) (_tcpKeepAlive a) (_defaultSchema a)
              (_applicationName a) locale (_fetchSize a) (_lobChunkSize a)
              (_dfv a) (_legacy a).

Definition setLegacy (a : connAttrs) (b : bool) : connAttrs :=
  mkConnAttrs (_host a) (_timeout a) (_pingInterval a) (_bufferSize a)
              (_bulkSize a) (_tcpKeepAlive a) (_defaultSchema a)
              (_applicationName a) (_locale a) (_fetchSize a) (_lobChunkSize a)
              (_dfv a) b.

(** A call of one of the setters. *)
Inductive setter : Type :=
| SetTimeout (v : Z)
| SetPingInterval (v : Z)
| SetBufferSize (v : Z)
| SetBulkSize (v : Z)
| SetTCPKeepAlive (v : Z)
| SetDefaultSchema (v : string)
| SetApplicationName (v : string)
| SetLocale (v : string)
| SetFetchSize (v : Z)
| SetLobChunkSize (v : Z)
| SetDfv (v : Z)
| SetLegacy (v : bool).

Section Dfv.
Variable IsSupportedDfv : Z -> bool.

Definition call (a : connAttrs) (c : setter) : connAttrs :=
  match c with
  | SetTimeout v => setTimeout a v
  | SetPingInterval v => setPingInterval a v
  | SetBufferSize v => setBufferSize a v
  | SetBulkSize v => setBulkSize a v
  | SetTCPKeepAlive v => setTCPKeepAlive a v
  | SetDefaultSchema v => setDefaultSchema a v
  | SetApplicationName v => setApplicationName a v
  | SetLocale v => setLocale a v
  | SetFetchSize v => setFetchSize a v
  | SetLobChunkSize v => setLobChunkSize a v
  | SetDfv v => setDfv IsSupportedDfv a v
  | SetLegacy v => setLegacy a v
  end.

Definition calls (a : connAttrs) (cs : list setter) : connAttrs :=
  fold_left call cs a.

End Dfv.

(** The bounds the driver relies on. *)
Definition bounded (a : connAttrs) : Prop :=
  0 <= _timeout a /\
  1 <= _bulkSize a <= MaxInt32 /\
  1 <= _fetchSize a /\
  128 <= _lobChunkSize a <= 16384.

End ConnAttrsOps.

(** ** Package driver: the statement and its bulk buffer *)

Module Stmt.
Import GoInt Exec.

Section Stmt.
Variable arg : Type.
Variable W : Type.
(** [stmt.exec(ctx, nvargs)]. *)
Variable exec : W -> list arg -> W * outcome (option Result * option error).
(** [newExecManyVariant(numField, nvarg.Value)]. *)
Variable newExecManyVariant : arg -> execManyer arg.
(** [s.pr.numField()]. *)
Variable numField : Z.

(** The fields of [stmt] that the execute methods read and write. *)
Record stmt : Type := mkStmt {
  bulk : bool;
  flush : bool;
  many : bool;
  bulkSize : Z;
  numBulk : Z;
  nvargs : list arg
}.

Definition len (l : list arg) : Z := Z.of_nat (List.length l).

Definition invalidNumberOfArguments (numArg : Z) : error :=
  ("invalid number of arguments " ++ fmt_d numArg ++ " - " ++ fmt_d numField
   ++ " expected")%string.

(** [resetArgs] and [s.numBulk = 0]. *)
Definition flushed (s : stmt) : stmt :=
  mkStmt (bulk s) (flush s) (many s) (bulkSize s) 0 [].

Definition execBulk (s : stmt) (w : W) (args : list arg) (flush : bool)
  : stmt * W * outcome (option Result * option error) :=
  let '(s, flush) :=
    match args with
    | [] => (s, true)
    | _ :: _ =>
        let numBulk := int64 (numBulk s + 1) in
        (mkStmt (bulk s) (Stmt.flush s) (many s) (bulkSize s) numBulk
                (nvargs s ++ args),
         if bulkSize s <=? numBulk then true else flush)
    end in
  if negb flush || (numBulk s =? 0) then
    (s, w, Ret (Some ResultNoRows, None))
  else
    let (w1, r) := exec w (nvargs s) in
    (flushed s, w1, r).

Definition ExecContext (s : stmt) (w : W) (args : list arg)
  : stmt * W * outcome (option Result * option error) :=
  let numArg := len args in
  if bulk s then
    let flush := flush s in
    let s := mkStmt (bulk s) false (many s) (bulkSize s) (numBulk s) (nvargs s) in
    if negb (numArg =? 0) && negb (numArg =? numField) then
      (s, w, Ret (None, Some (invalidNumberOfArguments numArg)))
    else execBulk s w args flush
  else if many s then
    let s := mkStmt (bulk s) (flush s) false (bulkSize s) (numBulk s) (nvargs s) in
    match args with
    | [nvarg] =>
        match execMany arg W exec numField (bulkSize s)
                       (newExecManyVariant nvarg) (len (nvargs s)) w with
        | (w1, Ret (r, err)) => (s, w1, Ret (Some r, err))
        | (w1, Panic m) => (s, w1, Panic m)
        end
    | _ =>
        (s, w, Ret (None,
           Some ("invalid argument of arguments " ++ fmt_d numArg
                 ++ " when using composite arguments - 1 expected")%string))
    end
  else if negb (numArg =? numField) then
    (s, w, Ret (None, Some (invalidNumberOfArguments numArg)))
  else
    let (w1, r) := exec w args in (s, w1, r).

(** A series of [ExecContext] calls, one per element of [calls]. *)
Fixpoint feed (s : stmt) (w : W) (calls : list (list arg))
  : stmt * W * list (outcome (option Result * option error)) :=
  match calls with
  | [] => (s, w, [])
  | args :: rest =>
      let '(s1, w1, r) := ExecContext s w args in
      let '(s2, w2, rs) := feed s1 w1 rest in
      (s2, w2, r :: rs)
  end.

(** A row of a bulk statement: one value for each field. *)
Definition isRow (args : list arg) : Prop := args <> [] /\ len args = numField.

End Stmt.

Arguments bulk {arg} s.
Arguments flush {arg} s.
Arguments many {arg} s.
Arguments bulkSize {arg} s.
Arguments numBulk {arg} s.
Arguments nvargs {arg} s.
Arguments mkStmt {arg} bulk flush many bulkSize numBulk nvargs.

End Stmt.

(** ** Package driver: the end of a transaction *)

Module Tx.
Import ConnLock DbConn.

Section Tx.
(** [W] is the state of the protocol reader and writer and of the server;
    [_commit] and [_rollback] are one exchange each. *)
Variable W : Type.
Variable _commit : W -> W * option error.
Variable _rollback : W -> W * option error.

(** A [tx] is its [closed] flag and the connection it points to. *)
Record state : Type := mkState {
  closed : bool;
  c : conn;
  w : W
}.

(** [tx.close(rollback)]: under the connection lock, a closed transaction
    returns at once; otherwise it is marked closed and the connection
    leaves the transaction before anything is sent. *)
Definition close (s : state) (rollback : bool) : attempt (state * option error) :=
  match lock (lk (c s)) with
  | Returns l1 tt =>
      let '(closed', inTx', w', err) :=
        if closed s then (closed s, inTx (c s), w s, None)
        else if isBad (c s) then (true, false, w s, Some ErrBadConn)
        else
          let (w1, err) := if rollback then _rollback (w s) else _commit (w s) in
          (true, false, w1, err) in
      match unlock l1 with
      | Ret l2 =>
          Returns l2 (mkState closed'
                              (mkConn l2 (db (c s)) (connLastError (c s)) inTx')
                              w', err)
      | Panic m => Crashes m
      end
  | Waits => Waits
  | Crashes m => Crashes m
  end.

Definition Commit (s : state) := close s false.
Definition Rollback (s : state) := close s true.

End Tx.

Arguments closed {W} s.
Arguments c {W} s.
Arguments w {W} s.
Arguments mkState {W} closed c w.

End Tx.

(** ** Package auth: parameter lists *)

Module Prms.
Import GoInt Bytes Encoding Auth.

#[local] Set Warnings "-register-all".

(** An element of [Prms.prms]: a byte slice, a CESU-8 string, or a nested
    parameter list. *)
Inductive prm : Type :=
| PBytes (b : list byte)
| PString (s : list byte)
| PPrms (prms : list prm).

Definition len {A : Type} (l : list A) : Z := Z.of_nat (List.length l).

Section Codec.
(** [encoding.VarBytesSize], [cesu8.StringSize], [Encoder.LIBytes] and
    [Encoder.CESU8LIString] are declared in packages that are not at hand. *)
Variable VarBytesSize : Z -> Z.
Variable StringSize : list byte -> Z.
Variable LIBytes : Encoder -> list byte -> Encoder * option error.
Variable CESU8LIString : Encoder -> list byte -> Encoder * option error.

(** [Prms.Size]: two bytes for the number of parameters, then the
    elements; a nested list counts its size field and its own size.  The
    sizes are those of values held in memory. *)
Fixpoint elemSize (e : prm) : Z :=
  match e with
  | PBytes b => VarBytesSize (len b)
  | PString s => VarBytesSize (StringSize s)
  | PPrms prms =>
      let subSize :=
        fold_left (fun size e => size + elemSize e) prms SmallintFieldSize in
      subSize + fieldSize subSize
  end.

Definition Size (prms : list prm) : Z :=
  fold_left (fun size e => size + elemSize e) prms SmallintFieldSize.

Definition tooMany (numPrms : Z) : error :=
  ("invalid number of parameters " ++ fmt_d numPrms ++ " - maximum "
   ++ fmt_d MaxInt16)%string.

(** [Prms.Encode]: the first error ends the encoding. *)
Fixpoint encodeElem (e : prm) (enc : Encoder) : Encoder * option error :=
  match e with
  | PBytes b => LIBytes enc b
  | PString s => CESU8LIString enc s
  | PPrms prms =>
      match encode (Size prms) enc with
      | (enc1, Some err) => (enc1, Some err)
      | (enc1, None) =>
          if MaxInt16 <? len prms then (enc1, Some (tooMany (len prms)))
          else
            (fix elems (l : list prm) (enc : Encoder) : Encoder * option error :=
               match l with
               | [] => (enc, None)
               | x :: l' =>
                   match encodeElem x enc with
                   | (enc', Some err) => (enc', Some err)
                   | (enc', None) => elems l' enc'
                   end
               end) prms (eInt16 enc1 (int16 (len prms)))
      end
  end.

Fixpoint encodeElems (l : list prm) (enc : Encoder) : Encoder * option error :=
  match l with
  | [] => (enc, None)
  | x :: l' =>
      match encodeElem x enc with
      | (enc', Some err) => (enc', Some err)
      | (enc', None) => encodeElems l' enc'
      end
  end.

Definition Encode (prms : list prm) (enc : Encoder) : Encoder * option error :=
  if MaxInt16 <? len prms then (enc, Some (tooMany (len prms)))
  else encodeElems prms (eInt16 enc (int16 (len prms))).

End Codec.

End Prms.

(** * Part II: properties *)

(** ** Go integers *)

Module GoIntFacts.
Import GoInt.

Lemma pow2_double (w : Z) : 0 < w -> 2 ^ w = 2 * 2 ^ (w - 1).
Proof.
  intros Hw. replace w with (Z.succ (w - 1)) at 1 by lia.
  apply Z.pow_succ_r. lia.
Qed.

Lemma wrap_id (w z : Z) : 0 < w -> in_signed w z -> wrap w z = z.
Proof.
  unfold in_signed, wrap. intros Hw Hz.
  pose proof (pow2_double w Hw). rewrite Z.mod_small; lia.
Qed.

Lemma wrap_range (w z : Z) : 0 < w -> in_signed w (wrap w z).
Proof.
  unfold in_signed, wrap. intros Hw.
  pose proof (pow2_double w Hw).
  assert (P : 0 < 2 ^ (w - 1)) by (apply Z.pow_pos_nonneg; lia).
  pose proof (Z.mod_pos_bound (z + 2 ^ (w - 1)) (2 ^ w)). lia.
Qed.

(** [wrap w] only looks at the low [w] bits. *)
Lemma wrap_mod (w z : Z) : 0 < w -> wrap w (z mod 2 ^ w) = wrap w z.
Proof.
  unfold wrap. intros Hw.
  rewrite Z.add_mod_idemp_l; [reflexivity|].
  apply Z.pow_nonzero; lia.
Qed.

End GoIntFacts.

(** ** Bytes *)

Module BytesFacts.
Import Bytes.

Lemma Z_of_byte_range (b : byte) : 0 <= Z_of_byte b < 256.
Proof.
  unfold Z_of_byte. pose proof (Byte.to_N_bounded b). lia.
Qed.

Lemma byte_of_Z_of_byte (b : byte) : byte_of_Z (Z_of_byte b) = b.
Proof.
  unfold byte_of_Z. rewrite Z.mod_small by apply Z_of_byte_range.
  unfold Z_of_byte. rewrite N2Z.id, Byte.of_to_N. reflexivity.
Qed.

Lemma Z_of_byte_of_Z (z : Z) : Z_of_byte (byte_of_Z z) = z mod 256.
Proof.
  unfold byte_of_Z, Z_of_byte.
  assert (R : 0 <= z mod 256 < 256) by (apply Z.mod_pos_bound; lia).
  destruct (Byte.of_N (Z.to_N (z mod 256))) as [b|] eqn:E.
  - apply Byte.to_of_N in E. rewrite E. lia.
  - apply Byte.of_N_None_iff in E. lia.
Qed.

Lemma le_bytes_length (n : nat) (z : Z) : length (le_bytes n z) = n.
Proof. revert z. induction n; intros; simpl; auto. Qed.

Lemma le_value_le_bytes (n : nat) (z : Z) :
  le_value (le_bytes n z) = z mod 2 ^ (8 * Z.of_nat n).
Proof.
  revert z. induction n as [|n IH]; intros z.
  - simpl. rewrite Z.mod_1_r. reflexivity.
  - cbn [le_bytes le_value]. rewrite IH, Z_of_byte_of_Z.
    replace (8 * Z.of_nat (S n)) with (8 + 8 * Z.of_nat n) by lia.
    rewrite Z.pow_add_r by lia. change (2 ^ 8) with 256.
    rewrite Z.rem_mul_r; [lia | lia |].
    apply Z.pow_pos_nonneg; lia.
Qed.

End BytesFacts.

(** ** The byte codec *)

Module EncodingFacts.
Import GoInt Bytes Encoding BytesFacts.

Lemma readFull_app (bs rest : list byte) :
  readFull (NewDecoder (bs ++ rest)) (length bs) = (NewDecoder rest, Some bs).
Proof.
  unfold readFull, NewDecoder. cbn [derr pending].
  assert (L : (length bs <=? length (bs ++ rest))%nat = true).
  { apply Nat.leb_le. rewrite length_app. lia. }
  rewrite L, skipn_app, firstn_app, Nat.sub_diag, skipn_all, firstn_all.
  cbn. rewrite app_nil_r. reflexivity.
Qed.

Lemma readUnsigned_app (bs rest : list byte) :
  readUnsigned (NewDecoder (bs ++ rest)) (length bs)
  = (NewDecoder rest, le_value bs).
Proof. unfold readUnsigned. rewrite readFull_app. reflexivity. Qed.

Lemma readUnsigned_le_bytes (n : nat) (z : Z) (rest : list byte) :
  readUnsigned (NewDecoder (le_bytes n z ++ rest)) n
  = (NewDecoder rest, z mod 2 ^ (8 * Z.of_nat n)).
Proof.
  rewrite <- (le_bytes_length n z) at 2.
  rewrite readUnsigned_app, le_value_le_bytes. reflexivity.
Qed.

Lemma dByte_cons (z : Z) (rest : list byte) :
  dByte (NewDecoder (byte_of_Z z :: rest)) = (NewDecoder rest, z mod 256).
Proof.
  unfold dByte. change (byte_of_Z z :: rest) with (le_bytes 1 z ++ rest).
  rewrite readUnsigned_le_bytes. reflexivity.
Qed.

Lemma dUint16BigEndian_pair (hi lo : Z) (rest : list byte) :
  dUint16BigEndian (NewDecoder (byte_of_Z hi :: byte_of_Z lo :: rest))
  = (NewDecoder rest, lo mod 256 + 256 * (hi mod 256)).
Proof.
  unfold dUint16BigEndian.
  change (byte_of_Z hi :: byte_of_Z lo :: rest)
    with ([byte_of_Z hi; byte_of_Z lo] ++ rest).
  change 2%nat with (length [byte_of_Z hi; byte_of_Z lo]).
  rewrite readFull_app. cbn [rev app le_value].
  rewrite !Z_of_byte_of_Z. f_equal. lia.
Qed.

End EncodingFacts.

(** ** Auth sub-parameter size *)

Module AuthFacts.
Import GoInt Bytes Encoding Auth BytesFacts EncodingFacts.

Lemma encode_one_byte (n : Z) (e : Encoder) :
  0 <= n <= 245 -> encode n e = (eBytes e [byte_of_Z n], None).
Proof.
  intros H. unfold encode, maxSubPrmsSize1ByteLen.
  destruct (Z.leb_spec n 245); [|lia].
  unfold eByte, uint8. change (2 ^ 8) with 256.
  rewrite Z.mod_small by lia. reflexivity.
Qed.

Lemma encode_three_bytes (n : Z) (e : Encoder) :
  245 < n <= 65535 ->
  encode n e
  = (eBytes e [byte_of_Z 255; byte_of_Z (n / 256); byte_of_Z n], None).
Proof.
  intros H. unfold encode, maxSubPrmsSize1ByteLen, MaxUint16.
  destruct (Z.leb_spec n 245); [lia|].
  destruct (Z.leb_spec n 65535); [|lia].
  unfold eUint16BigEndian, eByte, eBytes, uint16, subPrmsSize2ByteIndicator.
  cbn [written le_bytes rev app]. change (2 ^ 16) with 65536.
  rewrite Z.mod_small by lia. rewrite <- app_assoc. reflexivity.
Qed.

Lemma encode_too_big (n : Z) (e : Encoder) :
  65535 < n ->
  encode n e
  = (e, Some ("invalid subparameter size " ++ fmt_d n ++ " - maximum 42")%string).
Proof.
  intros H. unfold encode, maxSubPrmsSize1ByteLen, MaxUint16.
  destruct (Z.leb_spec n 245); [lia|].
  destruct (Z.leb_spec n 65535); [lia|]. reflexivity.
Qed.

Lemma decode_one_byte (n : Z) (rest : list byte) :
  0 <= n <= 245 ->
  decode (NewDecoder (byte_of_Z n :: rest)) = (NewDecoder rest, Ret n).
Proof.
  intros H. unfold decode. rewrite dByte_cons, Z.mod_small by lia.
  unfold maxSubPrmsSize1ByteLen. destruct (Z.leb_spec n 245); [reflexivity|lia].
Qed.

Lemma decode_three_bytes (n : Z) (rest : list byte) :
  0 <= n <= 65535 ->
  decode (NewDecoder (byte_of_Z 255 :: byte_of_Z (n / 256) :: byte_of_Z n :: rest))
  = (NewDecoder rest, Ret n).
Proof.
  intros H. unfold decode. rewrite dByte_cons.
  change (255 mod 256 <=? maxSubPrmsSize1ByteLen) with false.
  change (255 mod 256 =? subPrmsSize2ByteIndicator) with true.
  cbv iota. rewrite dUint16BigEndian_pair.
  assert (Hq : 0 <= n / 256 < 256).
  { split; [apply Z.div_pos; lia | apply Z.div_lt_upper_bound; lia]. }
  rewrite (Z.mod_small (n / 256)) by lia.
  pose proof (Z.div_mod n 256 ltac:(lia)) as D.
  do 2 f_equal. lia.
Qed.

(** C3: for [n] in [0, 65535] the encoder succeeds and appends a byte run
    [bs] that decodes back to [n]; [bs] is the single byte [n] when
    [n <= 245] and the byte 255 followed by the big-endian uint16 otherwise,
    so the one-byte form is used iff [n <= 245]; for [n > 65535] the encoder
    returns an error and writes nothing. *)
Theorem subPrmsSize_round_trip (n : Z) (e : Encoder) (rest : list byte) :
  (0 <= n <= 65535 ->
   exists bs : list byte,
     encode n e = (eBytes e bs, None) /\
     decode (NewDecoder (bs ++ rest)) = (NewDecoder rest, Ret n) /\
     (n <= 245 <-> length bs = 1%nat) /\
     (n <= 245 -> bs = [byte_of_Z n]) /\
     (245 < n ->
      bs = [byte_of_Z 255; byte_of_Z (n / 256); byte_of_Z (n mod 256)]))
  /\ (65535 < n -> exists msg : error, encode n e = (e, Some msg)).
Proof.
  split.
  - intros H. destruct (Z_le_gt_dec n 245) as [Hs|Hb].
    + exists [byte_of_Z n]. split; [apply encode_one_byte; lia|].
      split; [apply decode_one_byte; lia|].
      split; [split; intros; [reflexivity | lia]|].
      split; intros; [reflexivity | lia].
    + exists [byte_of_Z 255; byte_of_Z (n / 256); byte_of_Z n].
      split; [apply encode_three_bytes; lia|].
      split; [apply decode_three_bytes; lia|].
      split; [split; intros Hl; [lia | discriminate Hl]|].
      split; intros; [lia|].
      do 2 f_equal. unfold byte_of_Z. rewrite Z.mod_mod by lia. reflexivity.
  - intros H. eexists. apply encode_too_big. exact H.
Qed.

Lemma subPrmsSize_round_trip_witness :
  (exists bs : list byte,
     encode 300 NewEncoder = (eBytes NewEncoder bs, None) /\
     decode (NewDecoder (bs ++ [])) = (NewDecoder [], Ret 300) /\
     (300 <= 245 <-> length bs = 1%nat) /\
     (300 <= 245 -> bs = [byte_of_Z 300]) /\
     (245 < 300 ->
      bs = [byte_of_Z 255; byte_of_Z (300 / 256); byte_of_Z (300 mod 256)]))
  /\ (exists msg : error, encode 70000 NewEncoder = (NewEncoder, Some msg)).
Proof.
  split.
  - apply (proj1 (subPrmsSize_round_trip 300 NewEncoder [])). lia.
  - apply (proj2 (subPrmsSize_round_trip 70000 NewEncoder [])). lia.
Defined.

End AuthFacts.

(** ** Part header: argument count *)

Module PartHeaderFacts.
Import GoInt Protocol GoIntFacts.

Lemma setNumArg_small (h : PartHeader) (n : Z) :
  0 <= n <= 32767 -> setNumArg h n = (withNumArg h n 0, None).
Proof.
  intros H. unfold setNumArg, MaxInt16.
  destruct (Z.leb_spec n 32767); [|lia].
  unfold int16. rewrite wrap_id; [reflexivity | lia |].
  unfold in_signed. change (2 ^ (16 - 1)) with 32768. lia.
Qed.

Lemma setNumArg_big (h : PartHeader) (n : Z) :
  32767 < n <= 2147483647 ->
  setNumArg h n = (withNumArg h bigNumArgInd n, None).
Proof.
  intros H. unfold setNumArg, MaxInt16, MaxInt32.
  destruct (Z.leb_spec n 32767); [lia|].
  destruct (Z.leb_spec n 2147483647); [|lia].
  unfold int32. rewrite wrap_id; [reflexivity | lia |].
  unfold in_signed. change (2 ^ (32 - 1)) with 2147483648. lia.
Qed.

Lemma setNumArg_exceeded (h : PartHeader) (n : Z) :
  2147483647 < n ->
  setNumArg h n
  = (h, Some ("maximum number of arguments " ++ fmt_d n ++ " exceeded")%string).
Proof.
  intros H. unfold setNumArg, MaxInt16, MaxInt32.
  destruct (Z.leb_spec n 32767); [lia|].
  destruct (Z.leb_spec n 2147483647); [lia|]. reflexivity.
Qed.

(** C4: for [0 <= n <= 2^31-1], [setNumArg] succeeds and [numArg] then
    returns [n]; the 16-bit field holds [n] iff [n <= 32767], and above that
    it holds the sentinel -1 while the 32-bit field holds [n]; for
    [n > 2^31-1], [setNumArg] returns an error. *)
Theorem setNumArg_numArg (h : PartHeader) (n : Z) :
  (0 <= n <= 2 ^ 31 - 1 ->
   exists h' : PartHeader,
     setNumArg h n = (h', None) /\
     numArg h' = n /\
     (argumentCount h' = n <-> n <= 32767) /\
     (32767 < n -> argumentCount h' = -1 /\ bigArgumentCount h' = n))
  /\ (2 ^ 31 - 1 < n -> exists msg : error, setNumArg h n = (h, Some msg)).
Proof.
  change (2 ^ 31 - 1) with 2147483647. split.
  - intros H. destruct (Z_le_gt_dec n 32767) as [Hs|Hb].
    + exists (withNumArg h n 0). split; [apply setNumArg_small; lia|].
      unfold numArg, bigNumArgInd. cbn [withNumArg argumentCount bigArgumentCount].
      destruct (Z.eqb_spec n (-1)); [lia|].
      split; [reflexivity|]. split; [tauto | lia].
    + exists (withNumArg h bigNumArgInd n). split; [apply setNumArg_big; lia|].
      unfold numArg, bigNumArgInd. cbn [withNumArg argumentCount bigArgumentCount].
      split; [reflexivity|]. split; [lia | tauto].
  - intros H. eexists. apply setNumArg_exceeded. exact H.
Qed.

Lemma setNumArg_numArg_witness :
  (exists h' : PartHeader,
     setNumArg (mkPartHeader 0 0 0 0 0 0) 40000 = (h', None) /\
     numArg h' = 40000 /\
     (argumentCount h' = 40000 <-> 40000 <= 32767) /\
     (32767 < 40000 -> argumentCount h' = -1 /\ bigArgumentCount h' = 40000))
  /\ (exists msg : error,
        setNumArg (mkPartHeader 0 0 0 0 0 0) 2147483648
        = (mkPartHeader 0 0 0 0 0 0, Some msg)).
Proof.
  split.
  - apply (proj1 (setNumArg_numArg (mkPartHeader 0 0 0 0 0 0) 40000)).
    vm_compute. split; discriminate.
  - apply (proj2 (setNumArg_numArg (mkPartHeader 0 0 0 0 0 0) 2147483648)).
    reflexivity.
Defined.

End PartHeaderFacts.

(** ** Parameter fields: nullability *)

Module ParameterFieldFacts.
Import GoInt Bytes Encoding Protocol.

(** What [Nullable] computes: the options byte equals [poOptional]. *)
Lemma Nullable_iff (f : ParameterField) :
  Nullable f = true <-> parameterOptions f = poOptional.
Proof. unfold Nullable. apply Z.eqb_eq. Qed.

(** A nullable field does carry the [optional] flag. *)
Lemma Nullable_hasOption (f : ParameterField) :
  Nullable f = true -> hasOption (parameterOptions f) poOptional = true.
Proof. rewrite Nullable_iff. intros ->. reflexivity. Qed.

(** The 16 bytes of a parameter description whose options byte is
    [optional | default]. *)
Definition optionalDefaultField : list byte :=
  [x06; x03; x01; x00; x00; x00; x00; x00; x0a; x00; x00; x00; x00; x00; x00; x00].

(** C9 at a field decoded from [optionalDefaultField]: its options include
    [optional], and [Nullable] answers false. *)
Theorem Nullable_optional_default :
  let f := snd (decodeField (NewDecoder optionalDefaultField)) in
  parameterOptions f = 6 /\
  hasOption (parameterOptions f) poOptional = true /\
  Nullable f = false.
Proof. vm_compute. repeat split. Qed.

End ParameterFieldFacts.

(** ** Connect option types: round trip and size *)

Module OptTypeFacts.
Import GoInt Bytes Encoding Protocol GoIntFacts BytesFacts EncodingFacts.

Lemma dBool_eBool (b : bool) (rest : list byte) :
  dBool (NewDecoder (byte_of_Z (if b then 1 else 0) :: rest))
  = (NewDecoder rest, b).
Proof. unfold dBool. rewrite dByte_cons. destruct b; reflexivity. Qed.

Lemma dInt8_eInt8 (z : Z) (rest : list byte) :
  in_signed 8 z -> dInt8 (NewDecoder (byte_of_Z z :: rest)) = (NewDecoder rest, z).
Proof.
  intros H. unfold dInt8. rewrite dByte_cons. unfold int8.
  change 256 with (2 ^ 8). rewrite wrap_mod, wrap_id by (assumption || lia).
  reflexivity.
Qed.

Lemma dInt16_eInt16 (z : Z) (rest : list byte) :
  in_signed 16 z -> dInt16 (NewDecoder (le_bytes 2 z ++ rest)) = (NewDecoder rest, z).
Proof.
  intros H. unfold dInt16. rewrite readUnsigned_le_bytes. unfold int16.
  change (8 * Z.of_nat 2) with 16. rewrite wrap_mod, wrap_id by (assumption || lia).
  reflexivity.
Qed.

Lemma dInt32_eInt32 (z : Z) (rest : list byte) :
  in_signed 32 z -> dInt32 (NewDecoder (le_bytes 4 z ++ rest)) = (NewDecoder rest, z).
Proof.
  intros H. unfold dInt32. rewrite readUnsigned_le_bytes. unfold int32.
  change (8 * Z.of_nat 4) with 32. rewrite wrap_mod, wrap_id by (assumption || lia).
  reflexivity.
Qed.

Lemma dInt64_eInt64 (z : Z) (rest : list byte) :
  in_signed 64 z -> dInt64 (NewDecoder (le_bytes 8 z ++ rest)) = (NewDecoder rest, z).
Proof.
  intros H. unfold dInt64. rewrite readUnsigned_le_bytes. unfold int64.
  change (8 * Z.of_nat 8) with 64. rewrite wrap_mod, wrap_id by (assumption || lia).
  reflexivity.
Qed.

Lemma dFloat64_eFloat64 (bits : Z) (rest : list byte) :
  0 <= bits < 2 ^ 64 ->
  dFloat64 (NewDecoder (le_bytes 8 bits ++ rest)) = (NewDecoder rest, bits).
Proof.
  intros H. unfold dFloat64. rewrite readUnsigned_le_bytes.
  change (8 * Z.of_nat 8) with 64. rewrite Z.mod_small by assumption.
  reflexivity.
Qed.

Lemma dBytes_app (b rest : list byte) :
  dBytes (NewDecoder (b ++ rest)) (List.length b) = (NewDecoder rest, b).
Proof. unfold dBytes. rewrite readFull_app. reflexivity. Qed.

Lemma len_in_int16 (b : list byte) : len b <= MaxInt16 -> in_signed 16 (len b).
Proof.
  unfold len, MaxInt16, in_signed. change (2 ^ (16 - 1)) with 32768. lia.
Qed.

(** A length-prefixed run, as the string and byte-string types write it. *)
Lemma decodeRun_encoded (b rest : list byte) :
  len b <= MaxInt16 ->
  decodeRun (NewDecoder ((le_bytes 2 (int16 (len b)) ++ b) ++ rest))
  = (NewDecoder rest, Ret b).
Proof.
  intros H. pose proof (len_in_int16 b H) as R.
  unfold decodeRun, int16. rewrite wrap_id by (assumption || lia).
  rewrite <- app_assoc, dInt16_eInt16 by assumption.
  destruct (Z.ltb_spec (len b) 0) as [N|_]; [unfold len in N; lia|].
  unfold len. rewrite Nat2Z.id, dBytes_app. reflexivity.
Qed.

Lemma eBytes_eBytes (e : Encoder) (p q : list byte) :
  eBytes (eBytes e p) q = eBytes e (p ++ q).
Proof. unfold eBytes. cbn [written]. rewrite app_assoc. reflexivity. Qed.

(** C10: a supported connect-option value is encoded by the option type
    [getOptType] selects, the bytes written decode back to the value, and
    their number is what [size] reports. *)
Theorem optType_round_trip (v : value) (e : Encoder) (rest : list byte) :
  supported v ->
  exists (t : optType) (bs : list byte),
    getOptType v = Ret t /\
    encode t e v = Ret (eBytes e bs) /\
    decode t (NewDecoder (bs ++ rest)) = (NewDecoder rest, Ret v) /\
    size t v = Ret (len bs).
Proof.
  destruct v as [b|z|z|z|bits|s|b|t]; cbn [supported]; intros H.
  - exists optBooleanType, [byte_of_Z (if b then 1 else 0)].
    repeat split. cbn [decode app]. rewrite dBool_eBool. reflexivity.
  - exists optTinyintType, [byte_of_Z z].
    repeat split. cbn [decode app]. rewrite dInt8_eInt8 by assumption. reflexivity.
  - exists optIntegerType, (le_bytes 4 z).
    repeat split. cbn [decode]. rewrite dInt32_eInt32 by assumption. reflexivity.
  - exists optBigintType, (le_bytes 8 z).
    repeat split. cbn [decode]. rewrite dInt64_eInt64 by assumption. reflexivity.
  - exists optDoubleType, (le_bytes 8 bits).
    repeat split. cbn [decode]. rewrite dFloat64_eFloat64 by assumption. reflexivity.
  - exists optStringType, (le_bytes 2 (int16 (len s)) ++ s).
    split; [reflexivity|]. split.
    { cbn [encode]. unfold eInt16. rewrite eBytes_eBytes. reflexivity. }
    split.
    { cbn [decode]. rewrite decodeRun_encoded by assumption. reflexivity. }
    cbn [size]. unfold len. rewrite length_app, le_bytes_length. f_equal. lia.
  - exists optBstringType, (le_bytes 2 (int16 (len b)) ++ b).
    split; [reflexivity|]. split.
    { cbn [encode]. unfold eInt16. rewrite eBytes_eBytes. reflexivity. }
    split.
    { cbn [decode]. rewrite decodeRun_encoded by assumption. reflexivity. }
    cbn [size]. unfold len. rewrite length_app, le_bytes_length. f_equal. lia.
  - contradiction.
Qed.

Lemma optType_round_trip_witness :
  exists (t : optType) (bs : list byte),
    getOptType (VString [x68; x64; x62]) = Ret t /\
    encode t NewEncoder (VString [x68; x64; x62]) = Ret (eBytes NewEncoder bs) /\
    decode t (NewDecoder (bs ++ [xff])) = (NewDecoder [xff], Ret (VString [x68; x64; x62])) /\
    size t (VString [x68; x64; x62]) = Ret (len bs).
Proof.
  apply (optType_round_trip (VString [x68; x64; x62]) NewEncoder [xff]).
  vm_compute. discriminate.
Defined.

End OptTypeFacts.

(** ** Connection attributes: saturation *)

Module ConnAttrsFacts.
Import GoInt ConnAttrs.

Section Dfv.
Variable IsSupportedDfv : Z -> bool.

(** C7: each setter stores the saturated value and leaves every other
    attribute as it was; the setters are total functions with no error
    result. *)
Theorem setters_saturate (a : connAttrs) (v : Z) :
  setTimeout a v = with_timeout a (Z.max v 0) /\
  setBulkSize a v = with_bulkSize a (clamp 1 (2 ^ 31 - 1) v) /\
  setFetchSize a v = with_fetchSize a (Z.max v 1) /\
  setLobChunkSize a v = with_lobChunkSize a (clamp 128 16384 v) /\
  setDfv IsSupportedDfv a v
  = with_dfv a (if IsSupportedDfv v then v else 8).
Proof.
  unfold setTimeout, _setTimeout, setBulkSize, _setBulkSize, setFetchSize,
    _setFetchSize, setLobChunkSize, setDfv, clamp.
  change minTimeout with 0. change minBulkSize with 1.
  change maxBulkSize with 2147483647. change (2 ^ 31 - 1) with 2147483647.
  change minFetchSize with 1. change minLobChunkSize with 128.
  change maxLobChunkSize with 16384. change defaultDfv with 8.
  repeat split.
  - f_equal. destruct (Z.ltb_spec v 0); lia.
  - f_equal. destruct (Z.ltb_spec v 1); [lia|].
    destruct (Z.ltb_spec 2147483647 v); lia.
  - f_equal. destruct (Z.ltb_spec v 1); lia.
  - f_equal. destruct (Z.ltb_spec v 128); [lia|].
    destruct (Z.ltb_spec 16384 v); lia.
  - f_equal. destruct (IsSupportedDfv v); reflexivity.
Qed.

(** What is stored, read back through the fields. *)
Lemma stored_values (a : connAttrs) (v : Z) :
  _timeout (setTimeout a v) = Z.max v 0 /\
  1 <= _bulkSize (setBulkSize a v) <= 2 ^ 31 - 1 /\
  1 <= _fetchSize (setFetchSize a v) /\
  128 <= _lobChunkSize (setLobChunkSize a v) <= 16384.
Proof.
  destruct (setters_saturate a v) as (-> & -> & -> & -> & _).
  cbn [with_timeout with_bulkSize with_fetchSize with_lobChunkSize
       _timeout _bulkSize _fetchSize _lobChunkSize].
  unfold clamp. change (2 ^ 31 - 1) with 2147483647. lia.
Qed.

End Dfv.

End ConnAttrsFacts.

(** ** The nested-query guard *)

Module ConnLockFacts.
Import ConnLock.

(** Taking the lock with the nested-query reason from a free lock. *)
Lemma queryLocking_holds (l : connLock) :
  connMu l = false -> lockReason l <> lrNestedQuery ->
  queryLocking l true = Returns (mkConnLock lrNestedQuery true) None.
Proof.
  intros Hm Hr. unfold queryLocking, tryLock.
  destruct (Z.eqb_spec (lockReason l) lrNestedQuery); [contradiction|].
  rewrite Hm. reflexivity.
Qed.

Lemma tryLock_nested (l : connLock) (reason : Z) :
  lockReason l = lrNestedQuery ->
  tryLock l reason = Returns l (Some ErrNestedQuery).
Proof. intros H. unfold tryLock. rewrite H. reflexivity. Qed.

Lemma attempts_nested (l : connLock) (reasons : list Z) :
  lockReason l = lrNestedQuery ->
  attempts l reasons = (l, map (fun _ => Some ErrNestedQuery) reasons).
Proof.
  intros H. induction reasons as [|r rs IH]; [reflexivity|].
  cbn [attempts map]. rewrite tryLock_nested by assumption.
  rewrite IH. reflexivity.
Qed.

Lemma tryLock_free (reason : Z) :
  tryLock (mkConnLock 0 false) reason = Returns (mkConnLock reason true) None.
Proof. reflexivity. Qed.

(** The reason is the nested-query one only while the mutex is held: the
    invariant of the lock under its own operations. *)
Definition consistent (l : connLock) : Prop :=
  lockReason l = lrNestedQuery -> connMu l = true.

Lemma tryLock_consistent (l l' : connLock) (reason : Z) (e : option error) :
  consistent l -> tryLock l reason = Returns l' e -> consistent l'.
Proof.
  unfold consistent, tryLock. intros C H.
  destruct (lockReason l =? lrNestedQuery); [injection H as <- _; exact C|].
  destruct (connMu l); [discriminate|]. injection H as <- _. reflexivity.
Qed.

Lemma unlock_consistent (l l' : connLock) :
  unlock l = Ret l' -> consistent l'.
Proof.
  unfold consistent, unlock. destruct (connMu l); [|discriminate].
  intros H. injection H as <-. cbn. discriminate.
Qed.

(** C5: once a query operation has returned an open cursor, the lock is
    held with the nested-query reason; every [tryLock] made in that state,
    whatever its reason and however many are made, returns [ErrNestedQuery]
    and leaves the state as it was, and so do the operations built on it;
    the unlock that the cursor's close runs resets the reason and frees the
    mutex, after which [tryLock] succeeds. *)
Theorem nested_query_guard (l0 : connLock) (reasons : list Z) :
  connMu l0 = false -> lockReason l0 <> lrNestedQuery ->
  exists l1 : connLock,
    queryLocking l0 true = Returns l1 None /\
    lockReason l1 = lrNestedQuery /\ connMu l1 = true /\
    (forall reason : Z, tryLock l1 reason = Returns l1 (Some ErrNestedQuery)) /\
    attempts l1 reasons = (l1, map (fun _ => Some ErrNestedQuery) reasons) /\
    execLocking l1 = Returns l1 (Some ErrNestedQuery) /\
    (forall b : bool, queryLocking l1 b = Returns l1 (Some ErrNestedQuery)) /\
    exists l2 : connLock,
      unlock l1 = Ret l2 /\
      lockReason l2 = 0 /\ connMu l2 = false /\
      (forall reason : Z,
         tryLock l2 reason = Returns (mkConnLock reason true) None) /\
      execLocking l2 = Returns l2 None.
Proof.
  intros Hm Hr. exists (mkConnLock lrNestedQuery true).
  split; [apply queryLocking_holds; assumption|].
  split; [reflexivity|]. split; [reflexivity|].
  split; [intros; apply tryLock_nested; reflexivity|].
  split; [apply attempts_nested; reflexivity|].
  split; [reflexivity|]. split; [intros b; reflexivity|].
  exists (mkConnLock 0 false). repeat split.
Qed.

Lemma nested_query_guard_witness :
  exists l1 : connLock,
    queryLocking (mkConnLock 0 false) true = Returns l1 None /\
    lockReason l1 = lrNestedQuery /\ connMu l1 = true /\
    (forall reason : Z, tryLock l1 reason = Returns l1 (Some ErrNestedQuery)) /\
    attempts l1 [0; 1; 0] = (l1, map (fun _ => Some ErrNestedQuery) [0; 1; 0]) /\
    execLocking l1 = Returns l1 (Some ErrNestedQuery) /\
    (forall b : bool, queryLocking l1 b = Returns l1 (Some ErrNestedQuery)) /\
    exists l2 : connLock,
      unlock l1 = Ret l2 /\
      lockReason l2 = 0 /\ connMu l2 = false /\
      (forall reason : Z,
         tryLock l2 reason = Returns (mkConnLock reason true) None) /\
      execLocking l2 = Returns l2 None.
Proof.
  apply (nested_query_guard (mkConnLock 0 false) [0; 1; 0]).
  - reflexivity.
  - vm_compute. discriminate.
Defined.

End ConnLockFacts.

(** ** Cancellation *)

Module DbConnFacts.
Import ConnLock DbConn.

(** The state a cancel leaves behind, kept by every later step. *)
Definition cancelledState (c : conn) : Prop :=
  cancelled (db c) = 1 /\ lastError (db c) <> None.

Lemma cancel_cancelledState (c : conn) : cancelledState (run1 c DoCancel).
Proof. split; [reflexivity | discriminate]. Qed.

Lemma Read_cancelled (d : dbConn) (n : Z) (s : sockReply) :
  cancelled d = 1 -> Read d n s = (d, (0, Some ErrBadConn)).
Proof. intros H. unfold Read. rewrite H. reflexivity. Qed.

Lemma Write_cancelled (d : dbConn) (b : list byte) (s : sockReply) :
  cancelled d = 1 -> Write d b s = (d, (0, Some ErrBadConn)).
Proof. intros H. unfold Write. rewrite H. reflexivity. Qed.

Lemma run1_cancelledState (c : conn) (st : step) :
  cancelledState c -> cancelledState (run1 c st).
Proof.
  intros [Hc He]. destruct st; cbn [run1]; unfold cancelledState; cbn [db].
  - rewrite Read_cancelled by assumption. split; assumption.
  - rewrite Write_cancelled by assumption. split; assumption.
  - split; [reflexivity | discriminate].
  - cbn. split; [assumption | discriminate].
  - split; assumption.
  - split; assumption.
Qed.

Lemma run_cancelledState (sts : list step) (c : conn) :
  cancelledState c -> cancelledState (run c sts).
Proof.
  revert c. induction sts as [|st sts IH]; intros c H; [exact H|].
  apply (IH (run1 c st)). apply run1_cancelledState. exact H.
Qed.

Lemma isBad_cancelledState (c : conn) : cancelledState c -> isBad c = true.
Proof.
  intros [_ He]. unfold isBad. destruct (lastError (db c)); [reflexivity|].
  contradiction.
Qed.

(** C6: after [cancel], and after any further reads, writes, cancels,
    closes and updates of the connection's own last error and lock, a [Read]
    and a [Write] return [ErrBadConn] with a zero count and leave the
    connection, the record of socket calls included, as it was; [isBad] is
    true, and [IsValid], which waits for the connection mutex, returns false
    once it has it. *)
Theorem cancel_bad_connection
  (c0 : conn) (sts : list step) (n : Z) (b : list byte) (s : sockReply) :
  let c := run (run1 c0 DoCancel) sts in
  Read (db c) n s = (db c, (0, Some ErrBadConn)) /\
  Write (db c) b s = (db c, (0, Some ErrBadConn)) /\
  calls (fst (Read (db c) n s)) = calls (db c) /\
  calls (fst (Write (db c) b s)) = calls (db c) /\
  isBad c = true /\
  IsValid c = (if connMu (lk c) then Waits else Returns (mkConnLock 0 false) false).
Proof.
  intros c.
  assert (H : cancelledState c).
  { apply run_cancelledState, cancel_cancelledState. }
  pose proof (isBad_cancelledState c H) as Hb. destruct H as [Hc He].
  rewrite Read_cancelled, Write_cancelled by assumption.
  repeat split; try assumption.
  unfold IsValid, lock. destruct (connMu (lk c)); [reflexivity|].
  cbn. rewrite Hb. reflexivity.
Qed.

(** A first [Read] on a connection that was not cancelled does reach the
    socket: the guard is what stops the I/O. *)
Lemma Read_not_cancelled (d : dbConn) (n : Z) (s : sockReply) :
  cancelled d <> 1 -> calls (fst (Read d n s)) <> calls d.
Proof.
  intros H. unfold Read. destruct (Z.eqb_spec (cancelled d) 1); [contradiction|].
  destruct (deadlineErr s); [|destruct (ioErr s)]; cbn [fst calls];
    intros E; apply (f_equal (@List.length sockCall)) in E;
    rewrite length_app in E; cbn in E; lia.
Qed.

End DbConnFacts.

(** ** DSN parse errors *)

Module DsnFacts.
Import Dsn.

Lemma parseDSN_empty (url_Parse : string -> urlError + Url) :
  parseDSN url_Parse ""
  = inl (mkParseError "invalid parameter - DSN is empty" None).
Proof. reflexivity. Qed.

Lemma parseEntry_unknown (d : DSN) (k : string) (v : list string) :
  recognised k = false -> parseEntry d k v = inl (parameterNotSupportedError k).
Proof.
  unfold recognised. cbn [existsb]. intros H.
  repeat (apply orb_false_elim in H; destruct H as [?E H]).
  unfold parseEntry. rewrite E, E0, E1, E2, E3, E4. reflexivity.
Qed.

(** A query with an unrecognised key is never accepted. *)
Lemma parseQuery_unknown (q : list (string * list string)) (d : DSN) (k : string) :
  List.In k (keys q) -> recognised k = false ->
  exists e : ParseError, parseQuery q d = inl e.
Proof.
  intros Hin Hk. revert d. induction q as [|[k0 v0] q IH]; intros d.
  - destruct Hin.
  - cbn [parseQuery]. destruct (parseEntry d k0 v0) as [e|d'] eqn:E.
    + exists e. reflexivity.
    + destruct Hin as [Hin|Hin].
      * cbn in Hin. subst k0. rewrite parseEntry_unknown in E by assumption.
        discriminate.
      * apply IH. exact Hin.
Qed.

Lemma parseQuery_app (pre post : list (string * list string)) (d d' : DSN) :
  parseQuery pre d = inr d' -> parseQuery (pre ++ post) d = parseQuery post d'.
Proof.
  revert d. induction pre as [|[k v] pre IH]; intros d H.
  - cbn in H. injection H as ->. reflexivity.
  - cbn [parseQuery app] in *. destruct (parseEntry d k v); [discriminate|].
    apply IH. exact H.
Qed.

(** The unrecognised key is reported when the entries visited before it
    were accepted. *)
Lemma parseQuery_first_unknown
  (pre post : list (string * list string)) (k : string) (v : list string)
  (d d' : DSN) :
  parseQuery pre d = inr d' -> recognised k = false ->
  parseQuery (pre ++ (k, v) :: post) d = inl (parameterNotSupportedError k).
Proof.
  intros Hpre Hk. rewrite (parseQuery_app _ _ _ _ Hpre).
  cbn [parseQuery]. rewrite parseEntry_unknown by assumption. reflexivity.
Qed.

(** The unconditional reading, for a DSN [str]: whenever its query has an
    unrecognised key [k], the result is the parse error "parameter k is not
    supported". *)
Definition unknown_key_claim
  (url_Parse : string -> urlError + Url) (str : string) : Prop :=
  forall (u : Url) (k : string),
    url_Parse str = inr u -> List.In k (keys (Query u)) -> recognised k = false ->
    exists e : ParseError,
      parseDSN url_Parse str = inl e /\
      Error e = ("parameter " ++ k ++ " is not supported")%string.

(** C8 fails at [hdb://h?timeout=x&foo=1]: when the loop visits [timeout]
    first, the error is that of the timeout. *)
Lemma unknown_key_claim_counterexample :
  parseDSN sample_url_Parse twoKeysDSN
  = inl (mkParseError "failed to parse timeout: x" None) /\
  ~ unknown_key_claim sample_url_Parse twoKeysDSN.
Proof.
  split; [reflexivity|]. intros C.
  destruct (C twoKeysUrl "foo"%string) as (e & He & Hm).
  - reflexivity.
  - cbn. right. left. reflexivity.
  - reflexivity.
  - vm_compute in He. injection He as <-. vm_compute in Hm. discriminate Hm.
Qed.

(** C8, amended: the empty DSN gives the parse error "invalid parameter -
    DSN is empty"; a DSN that [url.Parse] accepts and whose query has an
    unrecognised key [k] gives a parse error and no DSN value, and that
    error is "parameter k is not supported" when the entries visited before
    [k] were accepted. *)
Theorem parseDSN_rejects
  (url_Parse : string -> urlError + Url) (str : string) (u : Url)
  (pre post : list (string * list string)) (k : string) (v : list string) :
  (parseDSN url_Parse ""
   = inl (mkParseError "invalid parameter - DSN is empty" None) /\
   Error (mkParseError "invalid parameter - DSN is empty" None)
   = "invalid parameter - DSN is empty"%string) /\
  (str <> ""%string -> url_Parse str = inr u ->
   Query u = pre ++ (k, v) :: post -> recognised k = false ->
   (exists e : ParseError, parseDSN url_Parse str = inl e) /\
   (forall d' : DSN,
      parseQuery pre (fromUrl u) = inr d' ->
      parseDSN url_Parse str = inl (parameterNotSupportedError k) /\
      Error (parameterNotSupportedError k)
      = ("parameter " ++ k ++ " is not supported")%string)).
Proof.
  split; [split; reflexivity|].
  intros Hne Hu Hq Hk. unfold parseDSN.
  destruct (String.eqb_spec str ""); [contradiction|]. rewrite Hu, Hq.
  split.
  - apply parseQuery_unknown with (k := k); [|exact Hk].
    unfold keys. rewrite map_app. apply in_or_app. right. left. reflexivity.
  - intros d' Hpre. split; [|reflexivity].
    apply parseQuery_first_unknown with (d' := d'); assumption.
Qed.

Lemma parseDSN_rejects_witness :
  (exists e : ParseError, parseDSN sample_url_Parse unknownKeyDSN = inl e) /\
  (parseDSN sample_url_Parse unknownKeyDSN
   = inl (parameterNotSupportedError "foo") /\
   Error (parameterNotSupportedError "foo") = "parameter foo is not supported"%string).
Proof.
  destruct (proj2 (parseDSN_rejects sample_url_Parse unknownKeyDSN
                     unknownKeyUrl [] [] "foo" ["1"%string]))
    as [Hex Hmsg].
  - vm_compute. discriminate.
  - reflexivity.
  - reflexivity.
  - reflexivity.
  - split; [exact Hex|]. apply (Hmsg (fromUrl unknownKeyUrl)). reflexivity.
Defined.

End DsnFacts.

(** ** Execute many, execute bulk *)

Module ExecFacts.
Import GoInt GoIntFacts Exec.





(** *** The split into packages *)

Section Split.
Variable bulkSize numRows : Z.
Hypothesis bulkSize_pos : 1 <= bulkSize.
Hypothesis numRows_nonneg : 0 <= numRows.

(** The number of packages, as [execMany] computes it. *)
Definition packs : Z :=
  let n := Z.quot numRows bulkSize in
  if negb (Z.rem numRows bulkSize =? 0) then n + 1 else n.

Definition startRow (p : Z) : Z := p * bulkSize.
Definition endRow (p : Z) : Z := min (startRow p + bulkSize) numRows.



End Split.

(** *** execMany against the scripted server *)


Section ManyScripted.
Variable arg : Type.
Variable numField bulkSize : Z.
Variable variant : execManyer arg.
(** The arguments of package [p], as [fill] produces them. *)
Variable pk : Z -> list arg.

Let loop := execManyLoop arg (server arg) serve_stmt_exec bulkSize variant.






Hypothesis bulkSize_pos : 1 <= bulkSize.
Hypothesis numField_nonneg : 0 <= numField.
Hypothesis numRow_nonneg : 0 <= numRow variant.




End ManyScripted.

End ExecFacts.

(** ** Bulk execute with LOB parameters *)

Module ExecBulkFacts.
Import GoInt Exec.

Section Loop.
Variable arg lob W : Type.
Variable asLob : arg -> option lob.
Variable FetchNext : W -> lob -> Z -> W * (bool * option error).
Variable _exec : W -> list arg -> bool -> bool -> W * (option Result * option error).
Variable lobChunkSize numColumns : Z.
Variable nvargs : list arg.
Variable commit : bool.

Let loop :=
  execBulkLoop arg lob W asLob FetchNext _exec lobChunkSize numColumns nvargs commit.

(** The count of a sub-package is added only when [RowsAffected()] fails,
    and then it is 0: whatever the server reports, the total of the split
    path stays 0. *)
Lemma execBulkLoop_total_zero (rowsLeft : nat) (i : Z) (w w' : W) (lastFrom n : Z)
  (e : option error) :
  loop rowsLeft i w 0 lastFrom = (w', Ret (Some (RowsAffected n), e)) -> n = 0.
Proof.
  unfold loop. revert i w lastFrom.
  induction rowsLeft as [|k IH]; intros i w lastFrom H.
  - cbn in H. congruence.
  - cbn [execBulkLoop] in H. cbv zeta in H.
    destruct (_fetchFirstLobChunk arg lob W asLob FetchNext lobChunkSize w _)
      as [w1 [hasNext [e1|]]]; [discriminate|].
    destruct (hasNext || (i =? numRows arg numColumns nvargs - 1)).
    + destruct (_exec w1 _ true commit) as [w2 [[r|] err]]; [|discriminate].
      destruct r as [m|]; cbn [Result_RowsAffected] in H.
      * destruct err; [congruence | eapply IH; exact H].
      * change (int64 (0 + 0)) with 0 in H.
        destruct err; [congruence | eapply IH; exact H].
    + eapply IH; exact H.
Qed.

End Loop.

(** One LOB column, two rows; the LOB of the first row needs further
    chunks, so the rows go out as two sub-packages, and the server reports
    one affected row for each. *)
Definition twoLobRows : list sarg := [LobArg 1 false; LobArg 2 true].

Definition scriptedExecBulk (nvargs : list sarg) (w : server sarg)
  : server sarg * outcome (option Result * option error) :=
  _execBulk sarg bool (server sarg) sarg_asLob sarg_FetchNext serve_exec
            8192 1 nvargs true true w.

(** C1 at [twoLobRows]: both sub-packages are sent and succeed with one
    affected row each, the sum of the counts is 2, and [_execBulk] returns
    0. *)
Theorem execBulk_lob_count_lost :
  scriptedExecBulk twoLobRows (mkServer [ok 1; ok 1] [])
  = (mkServer [] [[LobArg 1 false]; [LobArg 2 true]],
     Ret (Some (RowsAffected 0), None)) /\
  sum [1; 1] = 2.
Proof. split; reflexivity. Qed.

(** When the Execute of a sub-package fails, [_exec] returns a nil result
    and [_execBulk] calls [RowsAffected()] on it. *)
Lemma execBulk_lob_exec_error :
  scriptedExecBulk twoLobRows (mkServer [(None, Some DbConn.ErrBadConn)] [])
  = (mkServer [] [[LobArg 1 false]], nilPanic).
Proof. reflexivity. Qed.

(** Without the split (a single row) the count of the server is
    returned. *)
Lemma execBulk_single_row :
  scriptedExecBulk [LobArg 1 false] (mkServer [ok 1] [])
  = (mkServer [] [[LobArg 1 false]], Ret (Some (RowsAffected 1), None)).
Proof. reflexivity. Qed.

(** [execMany] over seven rows of one column with a bulk size of three:
    three requests of 3, 3 and 1 rows, and the sum of the counts. *)
Lemma execMany_seven_rows :
  execMany sarg (server sarg) serve_stmt_exec 1 3
           (execManyIntfList sarg Z (fun v => inr (PlainArg v)) [1; 2; 3; 4; 5; 6; 7])
           0 (mkServer [ok 3; ok 3; ok 1] [])
  = (mkServer []
       [[PlainArg 1; PlainArg 2; PlainArg 3];
        [PlainArg 4; PlainArg 5; PlainArg 6];
        [PlainArg 7]],
     Ret (RowsAffected 7, None)).
Proof. vm_compute. reflexivity. Qed.

End ExecBulkFacts.

(** ** LOB download *)

Module LobFacts.
Import GoInt GoIntFacts Lob.

(** *** Chunk size *)

Lemma chunkSize_min (lobChunkSize numChar ofs : Z) :
  0 <= lobChunkSize <= MaxInt32 ->
  - 2 ^ 31 <= numChar - ofs < 2 ^ 63 ->
  chunkSize lobChunkSize numChar ofs = Z.min lobChunkSize (numChar - ofs).
Proof.
  unfold MaxInt32. intros Hc Hn. unfold chunkSize, int64, int32.
  rewrite (wrap_id 64 lobChunkSize), (wrap_id 64 (numChar - ofs));
    try lia; try (unfold in_signed; change (2 ^ (64 - 1)) with (2 ^ 63); lia).
  destruct (Z.ltb_spec lobChunkSize (numChar - ofs)).
  - rewrite wrap_id; [lia | lia |].
    unfold in_signed. change (2 ^ (32 - 1)) with 2147483648. lia.
  - rewrite wrap_id; [lia | lia |].
    unfold in_signed. change (2 ^ (32 - 1)) with (2 ^ 31). lia.
Qed.

(** *** Counting CESU-8 characters *)

Section CESU8.
Variable FullRune : list byte -> bool.
Variable DecodeRuneSize : list byte -> Z.

Let count := countCESU8From FullRune DecodeRuneSize.

(** An encoding of three bytes counts as one character. *)
Lemma count_three_bytes (fuel : nat) (b : list byte) (n : Z) :
  FullRune b = true -> DecodeRuneSize b = 3 -> 3 <= len b ->
  count (S fuel) b n = count fuel (skipn 3 b) (int64 (n + 1)).
Proof.
  intros Hf Hs Hl. unfold count. destruct b as [|x b]; [cbn in Hl; lia|].
  cbn [countCESU8From]. rewrite Hf, Hs. cbn [negb].
  destruct (Z.ltb_spec (len (x :: b)) 3); [lia|]. reflexivity.
Qed.

(** A surrogate pair, six bytes, counts as two characters. *)
Lemma count_six_bytes (fuel : nat) (b : list byte) (n : Z) :
  FullRune b = true -> DecodeRuneSize b = 6 -> 6 <= len b ->
  count (S fuel) b n = count fuel (skipn 6 b) (int64 (int64 (n + 1) + 1)).
Proof.
  intros Hf Hs Hl. unfold count. destruct b as [|x b]; [cbn in Hl; lia|].
  cbn [countCESU8From]. rewrite Hf, Hs. cbn [negb].
  destruct (Z.ltb_spec (len (x :: b)) 6); [lia|]. reflexivity.
Qed.

(** An incomplete rune at the head of what is left is an error. *)
Lemma count_incomplete (fuel : nat) (b : list byte) (n : Z) :
  b <> [] -> FullRune b = false ->
  count (S fuel) b n
  = Some (Ret (0, Some "lob chunk consists of incomplete CESU-8 runes")).
Proof.
  intros Hb Hf. unfold count. destruct b; [contradiction|].
  cbn [countCESU8From]. rewrite Hf. reflexivity.
Qed.

(** The counter returns when every decoded size is at least 1 and within
    the bytes left: the fuel [length b] is enough. *)
Lemma count_returns (b : list byte) (fuel : nat) (n : Z) :
  (forall c : list byte, c <> [] -> 1 <= DecodeRuneSize c <= len c) ->
  (List.length b <= fuel)%nat ->
  exists r : Z * option error, count fuel b n = Some (Ret r).
Proof.
  intros Hsize. unfold count. revert b n.
  induction fuel as [|fuel IH]; intros b n Hl.
  - destruct b; [|cbn in Hl; lia]. eexists. reflexivity.
  - destruct b as [|x b]; [eexists; reflexivity|].
    cbn [countCESU8From]. destruct (FullRune (x :: b)); cbn [negb];
      [|eexists; reflexivity].
    pose proof (Hsize (x :: b) ltac:(discriminate)) as Hs.
    destruct (Z.ltb_spec (DecodeRuneSize (x :: b)) 0); [lia|].
    destruct (Z.ltb_spec (len (x :: b)) (DecodeRuneSize (x :: b))); [lia|].
    cbn [orb]. apply IH. rewrite length_skipn. cbn [List.length] in *. lia.
Qed.

End CESU8.

(** *** The requests of a download, against the scripted server *)

Section Scripted.
Variable lobChunkSize : Z.
Variable descr : LobOutDescr.t.

Let id := LobOutDescr.ID descr.
Let loop := decodeLoop server collect serve lobChunkSize countBytes descr.

(** The requests the code sends for the chunks it receives one after the
    other: the offset adds up the counts of all chunks received, the chunk
    size is computed from the count [last] of the latest chunk alone. *)
Fixpoint codeRequests (ofs last : Z) (chunks : list (list byte))
  : list ReadLobRequest.t :=
  match chunks with
  | [] => []
  | c :: cs =>
      let rq := ReadLobRequest.mk id (int64 (ofs + last))
                                  (chunkSize lobChunkSize (LobOutDescr.NumChar descr) last) in
      rq :: codeRequests (ReadLobRequest.Ofs rq) (int64 (len c)) cs
  end.

Definition chunkReply (lastData : bool) (c : list byte)
  : error + option ReadLobReply.t :=
  inr (Some (ReadLobReply.mk id lastData c)).

Lemma loop_eof (fuel : nat) (w : server) (last : Z)
  (rq : ReadLobRequest.t) (rp : ReadLobReply.t) :
  loop fuel w true last rq rp = (w, Some (Ret None)).
Proof. destruct fuel; reflexivity. Qed.

(** One turn of the loop: the request sent, and the state after the
    reply. *)
Lemma loop_step (fuel : nat) (w : server) (ofs cs last : Z)
  (rp : ReadLobReply.t) (lastData : bool) (c : list byte)
  (tail : list (error + option ReadLobReply.t)) :
  replies w = chunkReply lastData c :: tail ->
  let rq := ReadLobRequest.mk id (int64 (ofs + last))
              (chunkSize lobChunkSize (LobOutDescr.NumChar descr) last) in
  loop (S fuel) w false last (ReadLobRequest.mk id ofs cs) rp
  = loop fuel (mkServer tail (requests w ++ [rq]) (output w ++ c))
         lastData (int64 (len c)) rq (ReadLobReply.mk id lastData c).
Proof.
  intros Hr rq. unfold loop. cbn [decodeLoop]. cbv zeta.
  unfold serve at 1. rewrite Hr.
  cbn [ReadLobRequest.ID ReadLobRequest.Ofs ReadLobReply.ID ReadLobReply.B
       ReadLobReply.lastData chunkReply].
  rewrite Z.eqb_refl. reflexivity.
Qed.

Lemma loop_requests (chunks : list (list byte)) (final : list byte) (k : nat)
  (w : server) (ofs cs last : Z) (rp : ReadLobReply.t)
  (tail : list (error + option ReadLobReply.t)) :
  replies w = map (chunkReply false) chunks ++ chunkReply true final :: tail ->
  loop (S (List.length chunks) + k) w false last (ReadLobRequest.mk id ofs cs) rp
  = (mkServer tail
       (requests w ++ codeRequests ofs last (chunks ++ [final]))
       (output w ++ concat chunks ++ final),
     Some (Ret None)).
Proof.
  revert w ofs cs last rp.
  induction chunks as [|c chunks IH]; intros w ofs cs last rp Hr.
  - cbn [List.length Nat.add map app concat codeRequests] in *.
    rewrite (loop_step _ _ _ _ _ _ _ _ _ Hr). cbv zeta. apply loop_eof.
  - cbn [List.length Nat.add map app concat codeRequests] in *.
    rewrite (loop_step _ _ _ _ _ _ _ _ _ Hr). cbv zeta.
    change (S (List.length chunks + k)) with (S (List.length chunks) + k)%nat.
    rewrite IH by reflexivity.
    cbn [requests output ReadLobRequest.Ofs]. rewrite <- !app_assoc. reflexivity.
Qed.

(** The whole download of a byte-based LOB whose chunks all arrive. *)
Lemma decodeLobs_requests (chunks : list (list byte)) (final : list byte)
  (k : nat) (w : server) :
  LobOutDescr.lastData descr = false ->
  replies w = map (chunkReply false) chunks ++ [chunkReply true final] ->
  _decodeLobs server collect serve lobChunkSize countBytes descr
              (S (List.length chunks) + k) w
  = (mkServer []
       (requests w
        ++ codeRequests 0 (int64 (len (LobOutDescr.B descr))) (chunks ++ [final]))
       (output w ++ LobOutDescr.B descr ++ concat chunks ++ final),
     Some (Ret None)).
Proof.
  intros He Hr. unfold _decodeLobs. cbn [collect countBytes]. rewrite He.
  fold loop. fold id. rewrite (loop_requests chunks final k _ 0 0 _ _ []).
  - cbn [requests output]. rewrite <- !app_assoc. reflexivity.
  - exact Hr.
Qed.

(** The first request is the one the claim describes. *)
Lemma first_request (c : list byte) (cs : list (list byte)) :
  0 <= lobChunkSize <= MaxInt32 ->
  0 <= LobOutDescr.NumChar descr < 2 ^ 63 ->
  len (LobOutDescr.B descr) <= LobOutDescr.NumChar descr ->
  hd ReadLobRequest.zero
     (codeRequests 0 (int64 (len (LobOutDescr.B descr))) (c :: cs))
  = claimedRequest id lobChunkSize (LobOutDescr.NumChar descr)
                   (len (LobOutDescr.B descr)).
Proof.
  intros Hc Hn Hb. cbn [codeRequests hd]. unfold claimedRequest.
  assert (L : 0 <= len (LobOutDescr.B descr)) by (unfold len; lia).
  assert (E : int64 (len (LobOutDescr.B descr)) = len (LobOutDescr.B descr)).
  { unfold int64. apply wrap_id; [lia|].
    unfold in_signed. change (2 ^ (64 - 1)) with (2 ^ 63). lia. }
  rewrite E. cbn [Z.add]. rewrite E.
  rewrite chunkSize_min by lia. reflexivity.
Qed.

End Scripted.

(** *** A chunk that does not count *)

Section CountError.
Variable W : Type.
Variable wrWrite : W -> list byte -> W * option error.
Variable roundTrip : W -> ReadLobRequest.t -> W * (error + option ReadLobReply.t).
Variable lobChunkSize : Z.
Variable countChars : list byte -> option (outcome (Z * option error)).
Variable descr : LobOutDescr.t.

(** When the counter rejects the chunk of a reply, as the CESU-8 counter
    does for an incomplete rune, the download ends with that error; the
    chunk has been written by then. *)
Lemma decodeLoop_count_error (fuel : nat) (w w1 w2 : W) (ofs x : Z)
  (rq : ReadLobRequest.t) (rp r : ReadLobReply.t) (e : error) :
  roundTrip w (ReadLobRequest.mk (ReadLobRequest.ID rq)
                 (int64 (ReadLobRequest.Ofs rq + ofs))
                 (chunkSize lobChunkSize (LobOutDescr.NumChar descr) ofs))
  = (w1, inr (Some r)) ->
  ReadLobReply.ID r = ReadLobRequest.ID rq ->
  wrWrite w1 (ReadLobReply.B r) = (w2, None) ->
  countChars (ReadLobReply.B r) = Some (Ret (x, Some e)) ->
  decodeLoop W wrWrite roundTrip lobChunkSize countChars descr
             (S fuel) w false ofs rq rp
  = (w2, Some (Ret (Some e))).
Proof.
  intros Hrt Hid Hw Hc. cbn [decodeLoop]. cbv zeta. rewrite Hrt.
  cbn [ReadLobRequest.ID]. rewrite Hid, Z.eqb_refl. cbn [negb].
  rewrite Hw, Hc. reflexivity.
Qed.

(** The same for the bytes that come with the descriptor. *)
Lemma decodeLobs_count_error (fuel : nat) (w w1 : W) (x : Z) (e : error) :
  wrWrite w (LobOutDescr.B descr) = (w1, None) ->
  countChars (LobOutDescr.B descr) = Some (Ret (x, Some e)) ->
  _decodeLobs W wrWrite roundTrip lobChunkSize countChars descr fuel w
  = (w1, Some (Ret (Some e))).
Proof. intros Hw Hc. unfold _decodeLobs. rewrite Hw, Hc. reflexivity. Qed.

End CountError.

(** *** A download in three chunks *)

(** A byte-based LOB of 300 bytes: 100 come with the descriptor, the
    server sends 128 and then the last 72; the chunk size of the connection
    is 128. *)
Definition lob300 : LobOutDescr.t :=
  LobOutDescr.mk 7 false false 300 (repeat x41 100).

Definition lob300Replies : list (error + option ReadLobReply.t) :=
  [inr (Some (ReadLobReply.mk 7 false (repeat x42 128)));
   inr (Some (ReadLobReply.mk 7 true (repeat x43 72)))].

Definition download300 : server * option (outcome (option error)) :=
  decodeLobs server collect collect serve 128 (fun _ => true) (fun _ => 1)
             lob300 2 (mkServer lob300Replies [] []).

(** C2 at [lob300]: the download succeeds; the first request is the one
    the claim describes; the second has the offset 228 of the claim, and
    the chunk size 128 where the claim has min(128, 300 - 228) = 72. *)
Theorem decodeLobs_second_chunkSize :
  snd download300 = Some (Ret None) /\
  requests (fst download300)
  = [ReadLobRequest.mk 7 100 128; ReadLobRequest.mk 7 228 128] /\
  claimedRequest 7 128 300 100 = ReadLobRequest.mk 7 100 128 /\
  claimedRequest 7 128 300 228 = ReadLobRequest.mk 7 228 72.
Proof. vm_compute. repeat split. Qed.

End LobFacts.

(** ** Headers on the wire *)

Module FramingFacts.
Import GoInt Bytes Encoding Protocol Framing.
Import GoIntFacts BytesFacts EncodingFacts OptTypeFacts.

Lemma dUint32_eUint32 (z : Z) (rest : list byte) :
  0 <= z < 2 ^ 32 ->
  dUint32 (NewDecoder (le_bytes 4 z ++ rest)) = (NewDecoder rest, z).
Proof.
  intros H. unfold dUint32. rewrite readUnsigned_le_bytes.
  change (8 * Z.of_nat 4) with 32. rewrite Z.mod_small by assumption.
  reflexivity.
Qed.

Lemma dSkip_zeroes (n : nat) (rest : list byte) :
  dSkip (NewDecoder (repeat x00 n ++ rest)) n = NewDecoder rest.
Proof.
  unfold dSkip. rewrite <- (repeat_length x00 n) at 2.
  rewrite readFull_app. reflexivity.
Qed.

Lemma int8_id (z : Z) : in_signed 8 z -> int8 z = z.
Proof. intros H. apply wrap_id; [lia | exact H]. Qed.

Lemma int16_id (z : Z) : in_signed 16 z -> int16 z = z.
Proof. intros H. apply wrap_id; [lia | exact H]. Qed.

(** Rewrites an encoder built field by field into one byte run. *)
Ltac one_run :=
  unfold eInt64, eInt32, eUint32, eInt16, eInt8, eBool, eByte, eZeroes;
  rewrite ?eBytes_eBytes.

(** Reads the fields back, one decoder call after the other. *)
Ltac read_back :=
  repeat first
    [ rewrite dInt64_eInt64 by assumption
    | rewrite dInt32_eInt32 by assumption
    | rewrite dUint32_eUint32 by assumption
    | rewrite dInt16_eInt16 by assumption
    | rewrite dInt8_eInt8 by assumption
    | rewrite dBool_eBool
    | rewrite dSkip_zeroes ].

(** A message header takes 32 bytes, and decoding them gives the header
    back. *)
Theorem messageHeader_round_trip
  (h : messageHeader) (e : Encoder) (rest : list byte) :
  messageHeader_wf h ->
  exists bs : list byte,
    messageHeader_encode h e = (eBytes e bs, None) /\
    List.length bs = 32%nat /\
    messageHeader_decode (NewDecoder (bs ++ rest)) = (NewDecoder rest, h, None).
Proof.
  intros (H1 & H2 & H3 & H4 & H5). destruct h as [sid pc vl vs ns]. cbn in *.
  eexists. split.
  - unfold messageHeader_encode. cbn [sessionID packetCount varPartLength
      varPartSize noOfSegm]. one_run. reflexivity.
  - split.
    + rewrite !length_app, !le_bytes_length, repeat_length. reflexivity.
    + unfold messageHeader_decode. rewrite <- !app_assoc. read_back.
      reflexivity.
Qed.

Lemma messageHeader_round_trip_witness :
  exists bs : list byte,
    messageHeader_encode (mkMessageHeader (-1) 1 64 16276 1) NewEncoder
    = (eBytes NewEncoder bs, None) /\
    List.length bs = 32%nat /\
    messageHeader_decode (NewDecoder (bs ++ [xff]))
    = (NewDecoder [xff], mkMessageHeader (-1) 1 64 16276 1, None).
Proof.
  apply (messageHeader_round_trip (mkMessageHeader (-1) 1 64 16276 1) NewEncoder [xff]).
  unfold messageHeader_wf, in_signed. cbn. lia.
Defined.

(** The bytes of a part header, written and read back. *)
Lemma PartHeader_on_the_wire
  (h : PartHeader) (e : Encoder) (rest : list byte) :
  PartHeader_wf h ->
  exists bs : list byte,
    PartHeader_encode h e = (eBytes e bs, None) /\
    List.length bs = 16%nat /\
    PartHeader_decode (NewDecoder (bs ++ rest)) = (NewDecoder rest, h, None).
Proof.
  intros (H1 & H2 & H3 & H4 & H5 & H6). destruct h as [pk pa ac bac bl bs].
  cbn in *. eexists. split.
  - unfold PartHeader_encode. cbn [PartKind PartAttributes argumentCount
      bigArgumentCount bufferLength bufferSize].
    rewrite (int8_id pk), (int8_id pa) by assumption. one_run. reflexivity.
  - split.
    + rewrite !length_app, !le_bytes_length. reflexivity.
    + unfold PartHeader_decode. rewrite <- !app_assoc. cbn [app]. read_back.
      reflexivity.
Qed.

(** A part header takes 16 bytes, and decoding them gives the header
    back. *)
Theorem PartHeader_round_trip
  (h : PartHeader) (e : Encoder) (rest : list byte) :
  PartHeader_wf h ->
  exists bs : list byte,
    PartHeader_encode h e = (eBytes e bs, None) /\
    List.length bs = 16%nat /\
    PartHeader_decode (NewDecoder (bs ++ rest)) = (NewDecoder rest, h, None).
Proof. intros Hwf. exact (PartHeader_on_the_wire h e rest Hwf). Qed.

Lemma PartHeader_round_trip_witness :
  exists bs : list byte,
    PartHeader_encode (mkPartHeader 3 1 (-1) 40000 128 16276) NewEncoder
    = (eBytes NewEncoder bs, None) /\
    List.length bs = 16%nat /\
    PartHeader_decode (NewDecoder (bs ++ [xff]))
    = (NewDecoder [xff], mkPartHeader 3 1 (-1) 40000 128 16276, None).
Proof.
  apply (PartHeader_round_trip (mkPartHeader 3 1 (-1) 40000 128 16276) NewEncoder [xff]).
  unfold PartHeader_wf, in_signed. cbn. lia.
Defined.

End FramingFacts.

(** ** Segment headers, and headers cut short *)

Module SegmentFacts.
Import GoInt Bytes Encoding Protocol Framing.
Import GoIntFacts BytesFacts EncodingFacts OptTypeFacts FramingFacts PartHeaderFacts.

(** What a decoded segment header holds after [h] was sent and decoded
    into [h0]: the fields the kind of [h] carries come from [h], the others
    stay as they were in [h0]. *)
Definition carried (h h0 : segmentHeader) : segmentHeader :=
  if segmentKind h =? skRequest then
    mkSegmentHeader (segmentLength h) (segmentOfs h) (noOfParts h) (segmentNo h)
      (segmentKind h) (messageType h) (commit h) (commandOptions h)
      (functionCode h0)
  else if segmentKind h =? skReply then
    mkSegmentHeader (segmentLength h) (segmentOfs h) (noOfParts h) (segmentNo h)
      (segmentKind h) (messageType h0) (commit h0) (commandOptions h0)
      (functionCode h)
  else
    mkSegmentHeader (segmentLength h) (segmentOfs h) (noOfParts h) (segmentNo h)
      (segmentKind h) (messageType h0) (commit h0) (commandOptions h0)
      (functionCode h0).

(** A segment header takes 24 bytes whatever its kind; decoding them gives
    back the common fields and the fields of that kind: message type, commit
    and command options of a request, the function code of a reply, none of
    them for any other kind. *)
Theorem segmentHeader_round_trip
  (h h0 : segmentHeader) (e : Encoder) (rest : list byte) :
  segmentHeader_wf h ->
  exists bs : list byte,
    segmentHeader_encode h e = (eBytes e bs, None) /\
    List.length bs = 24%nat /\
    segmentHeader_decode h0 (NewDecoder (bs ++ rest))
    = (NewDecoder rest, carried h h0, None).
Proof.
  intros (H1 & H2 & H3 & H4 & H5 & H6 & H7 & H8).
  destruct h as [sl so np sn sk mt c co fc]. cbn in *.
  unfold segmentHeader_encode, segmentHeader_decode, carried.
  cbn [segmentLength segmentOfs noOfParts segmentNo segmentKind messageType
       commit commandOptions functionCode].
  rewrite (int8_id sk) by assumption.
  destruct (Z.eqb_spec sk skRequest) as [Er|Er];
    [|destruct (Z.eqb_spec sk skReply) as [Ep|Ep]].
  - rewrite (int8_id mt), (int8_id co) by assumption.
    eexists. split; [one_run; reflexivity|]. split.
    + rewrite !length_app, !le_bytes_length, repeat_length. reflexivity.
    + rewrite <- !app_assoc. cbn [app]. read_back.
      destruct (Z.eqb_spec sk skRequest); [|contradiction]. read_back.
      reflexivity.
  - rewrite (int16_id fc) by assumption.
    eexists. split; [one_run; reflexivity|]. split.
    + rewrite !length_app, !le_bytes_length, !repeat_length. reflexivity.
    + rewrite <- !app_assoc. cbn [app]. read_back.
      destruct (Z.eqb_spec sk skRequest); [contradiction|].
      destruct (Z.eqb_spec sk skReply); [|contradiction].
      change [x00] with (repeat x00 1). read_back. reflexivity.
  - eexists. split; [one_run; reflexivity|]. split.
    + rewrite !length_app, !le_bytes_length, repeat_length. reflexivity.
    + rewrite <- !app_assoc. cbn [app]. read_back.
      destruct (Z.eqb_spec sk skRequest); [contradiction|].
      destruct (Z.eqb_spec sk skReply); [contradiction|].
      read_back. reflexivity.
Qed.

Lemma segmentHeader_round_trip_witness :
  exists bs : list byte,
    segmentHeader_encode (mkSegmentHeader 56 0 2 1 1 3 true 0 0) NewEncoder
    = (eBytes NewEncoder bs, None) /\
    List.length bs = 24%nat /\
    segmentHeader_decode (mkSegmentHeader 0 0 0 0 0 0 false 0 7)
                         (NewDecoder (bs ++ [xff]))
    = (NewDecoder [xff],
       carried (mkSegmentHeader 56 0 2 1 1 3 true 0 0)
               (mkSegmentHeader 0 0 0 0 0 0 false 0 7), None).
Proof.
  apply (segmentHeader_round_trip (mkSegmentHeader 56 0 2 1 1 3 true 0 0)
           (mkSegmentHeader 0 0 0 0 0 0 false 0 7) NewEncoder [xff]).
  unfold segmentHeader_wf, in_signed. cbn. lia.
Defined.

(** An argument count set with [setNumArg] survives the wire: after
    encoding the part header and decoding it, [numArg] returns the count. *)
Theorem numArg_over_the_wire
  (h : PartHeader) (n : Z) (e : Encoder) (rest : list byte) :
  PartHeader_wf h -> 0 <= n <= MaxNumArg ->
  exists (h1 : PartHeader) (bs : list byte),
    setNumArg h n = (h1, None) /\
    PartHeader_encode h1 e = (eBytes e bs, None) /\
    exists h2 : PartHeader,
      PartHeader_decode (NewDecoder (bs ++ rest)) = (NewDecoder rest, h2, None) /\
      numArg h2 = n.
Proof.
  unfold MaxNumArg, MaxInt32. intros Hwf Hn.
  assert (S : exists h1, setNumArg h n = (h1, None) /\ PartHeader_wf h1 /\ numArg h1 = n).
  { destruct Hwf as (H1 & H2 & H3 & H4 & H5 & H6).
    destruct (Z_le_gt_dec n 32767).
    - exists (withNumArg h n 0). split; [apply setNumArg_small; lia|].
      split.
      + unfold PartHeader_wf, in_signed in *. cbn. lia.
      + unfold numArg, bigNumArgInd. cbn.
        destruct (Z.eqb_spec n (-1)); [lia | reflexivity].
    - exists (withNumArg h bigNumArgInd n). split; [apply setNumArg_big; lia|].
      split.
      + unfold PartHeader_wf, in_signed, bigNumArgInd in *. cbn. lia.
      + reflexivity. }
  destruct S as (h1 & Hs & Hwf1 & Hn1).
  destruct (PartHeader_on_the_wire h1 e rest Hwf1) as (bs & He & _ & Hd).
  exists h1, bs. split; [exact Hs|]. split; [exact He|].
  exists h1. split; [exact Hd | exact Hn1].
Qed.

Lemma numArg_over_the_wire_witness :
  exists (h1 : PartHeader) (bs : list byte),
    setNumArg (mkPartHeader 3 0 0 0 0 0) 100000 = (h1, None) /\
    PartHeader_encode h1 NewEncoder = (eBytes NewEncoder bs, None) /\
    exists h2 : PartHeader,
      PartHeader_decode (NewDecoder (bs ++ [])) = (NewDecoder [], h2, None) /\
      numArg h2 = 100000.
Proof.
  apply (numArg_over_the_wire (mkPartHeader 3 0 0 0 0 0) 100000 NewEncoder []).
  - unfold PartHeader_wf, in_signed. cbn. lia.
  - unfold MaxNumArg, MaxInt32. lia.
Defined.

End SegmentFacts.

(** ** Headers cut short *)

Module TruncatedFacts.
Import GoInt Bytes Encoding Protocol Framing.

(** The decoder after a series of reads of the given sizes. *)
Definition readAll (sizes : list nat) (d : Decoder) : Decoder :=
  fold_left (fun d n => fst (readFull d n)) sizes d.

Lemma readFull_latched (d : Decoder) (n : nat) :
  derr d <> None -> fst (readFull d n) = d.
Proof. unfold readFull. destruct (derr d); [reflexivity | contradiction]. Qed.

Lemma readAll_latched (sizes : list nat) (d : Decoder) :
  derr d <> None -> derr (readAll sizes d) <> None.
Proof.
  revert d. induction sizes as [|n ns IH]; intros d H; [exact H|].
  cbn [readAll fold_left]. apply IH. rewrite readFull_latched; assumption.
Qed.

(** Reads that ask for more than the input holds end with the error
    latched. *)
Lemma readAll_short (sizes : list nat) (d : Decoder) :
  (List.length (pending d) < list_sum sizes)%nat ->
  derr (readAll sizes d) <> None.
Proof.
  revert d. induction sizes as [|n ns IH]; intros d H; [cbn in H; lia|].
  cbn [readAll fold_left]. fold (readAll ns (fst (readFull d n))).
  destruct (derr d) eqn:E.
  - apply readAll_latched. rewrite readFull_latched; rewrite E; discriminate.
  - unfold readFull. rewrite E.
    destruct (Nat.leb_spec n (List.length (pending d))).
    + apply IH. cbn [fst pending]. rewrite length_skipn.
      change (list_sum (n :: ns)) with (n + list_sum ns)%nat in H. lia.
    + apply readAll_latched. cbn. destruct (pending d); discriminate.
Qed.

Ltac to_reads :=
  unfold dInt64, dInt32, dUint32, dInt16, dInt8, dBool, dByte, dSkip,
    readUnsigned, dError, readAll; cbn [fold_left];
  repeat match goal with
         | |- context [readFull ?d ?n] =>
             is_var d; destruct (readFull d n) as [? [?|]]; cbn [fst snd]
         | |- context [readFull (NewDecoder ?i) ?n] =>
             destruct (readFull (NewDecoder i) n) as [? [?|]]; cbn [fst snd]
         end.

Lemma messageHeader_decode_reads (input : list byte) :
  snd (messageHeader_decode (NewDecoder input))
  = derr (readAll [8; 4; 4; 4; 2; 10]%nat (NewDecoder input)).
Proof. unfold messageHeader_decode. to_reads; reflexivity. Qed.

Lemma PartHeader_decode_reads (input : list byte) :
  snd (PartHeader_decode (NewDecoder input))
  = derr (readAll [1; 1; 2; 4; 4; 4]%nat (NewDecoder input)).
Proof. unfold PartHeader_decode. to_reads; reflexivity. Qed.

Lemma segmentHeader_decode_reads (h0 : segmentHeader) (input : list byte) :
  exists tail : list nat,
    list_sum tail = 11%nat /\
    snd (segmentHeader_decode h0 (NewDecoder input))
    = derr (readAll ([4; 4; 2; 2; 1] ++ tail)%nat (NewDecoder input)).
Proof.
  unfold segmentHeader_decode.
  destruct (dInt32 (NewDecoder input)) as [d1 sl] eqn:E1.
  destruct (dInt32 d1) as [d2 so] eqn:E2.
  destruct (dInt16 d2) as [d3 np] eqn:E3.
  destruct (dInt16 d3) as [d4 sn] eqn:E4.
  destruct (dInt8 d4) as [d5 sk] eqn:E5.
  assert (P : d5 = readAll [4; 4; 2; 2; 1]%nat (NewDecoder input)).
  { revert E1 E2 E3 E4 E5.
    unfold dInt32, dInt16, dInt8, dByte, readUnsigned, readAll. cbn [fold_left].
    destruct (readFull (NewDecoder input) 4) as [a1 [?|]]; intros E1;
      injection E1 as <- _; cbn [fst];
    destruct (readFull a1 4) as [a2 [?|]]; intros E2;
      injection E2 as <- _; cbn [fst];
    destruct (readFull a2 2) as [a3 [?|]]; intros E3;
      injection E3 as <- _; cbn [fst];
    destruct (readFull a3 2) as [a4 [?|]]; intros E4;
      injection E4 as <- _; cbn [fst];
    destruct (readFull a4 1) as [a5 [?|]]; intros E5;
      injection E5 as <- _; reflexivity. }
  destruct (sk =? skRequest); [|destruct (sk =? skReply)].
  - exists [1; 1; 1; 8]%nat. split; [reflexivity|].
    unfold readAll in *. rewrite fold_left_app, <- P. to_reads; reflexivity.
  - exists [1; 2; 8]%nat. split; [reflexivity|].
    unfold readAll in *. rewrite fold_left_app, <- P. to_reads; reflexivity.
  - exists [11]%nat. split; [reflexivity|].
    unfold readAll in *. rewrite fold_left_app, <- P. to_reads; reflexivity.
Qed.

(** A header cut short is a decode error: fewer than 32 bytes for a
    message header, 24 for a segment header, 16 for a part header. *)
Theorem header_cut_short (input : list byte) (h0 : segmentHeader) :
  ((List.length input < 32)%nat ->
   snd (messageHeader_decode (NewDecoder input)) <> None) /\
  ((List.length input < 24)%nat ->
   snd (segmentHeader_decode h0 (NewDecoder input)) <> None) /\
  ((List.length input < 16)%nat ->
   snd (PartHeader_decode (NewDecoder input)) <> None).
Proof.
  repeat split; intros H.
  - rewrite messageHeader_decode_reads. apply readAll_short. cbn. lia.
  - destruct (segmentHeader_decode_reads h0 input) as (tail & Hs & ->).
    apply readAll_short. rewrite list_sum_app, Hs. cbn. lia.
  - rewrite PartHeader_decode_reads. apply readAll_short. cbn. lia.
Qed.

Lemma header_cut_short_witness :
  snd (messageHeader_decode (NewDecoder [x01; x02])) <> None /\
  snd (segmentHeader_decode (mkSegmentHeader 0 0 0 0 0 0 false 0 0)
                            (NewDecoder [x01; x02])) <> None /\
  snd (PartHeader_decode (NewDecoder [x01; x02])) <> None.
Proof.
  pose proof (header_cut_short [x01; x02] (mkSegmentHeader 0 0 0 0 0 0 false 0 0))
    as (H1 & H2 & H3).
  split; [apply H1; cbn; lia|]. split; [apply H2; cbn; lia | apply H3; cbn; lia].
Defined.

End TruncatedFacts.

(** ** Authentication parameters on the wire *)

Module AuthDecoderFacts.
Import GoInt Bytes Encoding Auth AuthDecoder.
Import GoIntFacts BytesFacts EncodingFacts OptTypeFacts AuthFacts.

(** The size field that [Prms.Size] accounts for with [fieldSize] is the
    size field that [encode] writes: one byte up to 245, three above. *)
Theorem fieldSize_is_written (n : Z) (e : Encoder) :
  0 <= n <= 65535 ->
  exists bs : list byte,
    encode n e = (eBytes e bs, None) /\
    Z.of_nat (List.length bs) = fieldSize n.
Proof.
  intros H. unfold fieldSize, maxSubPrmsSize1ByteLen.
  destruct (Z.ltb_spec 245 n).
  - eexists. split; [apply encode_three_bytes; lia | reflexivity].
  - eexists. split; [apply encode_one_byte; lia | reflexivity].
Qed.

Lemma fieldSize_is_written_witness :
  exists bs : list byte,
    encode 1000 NewEncoder = (eBytes NewEncoder bs, None) /\
    Z.of_nat (List.length bs) = fieldSize 1000.
Proof. apply (fieldSize_is_written 1000 NewEncoder). lia. Defined.

(** The size indicators 246 to 254 are not sizes: the decoder panics on
    them, after it has taken the indicator byte. *)
Theorem decode_reserved_indicator (b : Z) (rest : list byte) :
  246 <= b <= 254 ->
  decode (NewDecoder (byte_of_Z b :: rest))
  = (NewDecoder rest,
     Panic ("invalid sub parameter size indicator " ++ fmt_d b)%string).
Proof.
  intros H. unfold decode. rewrite dByte_cons, Z.mod_small by lia.
  unfold maxSubPrmsSize1ByteLen, subPrmsSize2ByteIndicator.
  destruct (Z.leb_spec b 245); [lia|].
  destruct (Z.eqb_spec b 255); [lia|]. reflexivity.
Qed.

Lemma decode_reserved_indicator_witness :
  decode (NewDecoder (byte_of_Z 250 :: [x01]))
  = (NewDecoder [x01],
     Panic ("invalid sub parameter size indicator " ++ fmt_d 250)%string).
Proof. apply (decode_reserved_indicator 250 [x01]). lia. Defined.

(** [NumPrm] takes the two bytes of the count whatever they hold, and
    returns no error exactly when the count is the expected one. *)
Theorem NumPrm_checks (n expected : Z) (rest : list byte) :
  in_signed 16 n ->
  exists err : option error,
    NumPrm (NewDecoder (le_bytes 2 n ++ rest)) expected = (NewDecoder rest, err) /\
    (err = None <-> n = expected).
Proof.
  intros H. unfold NumPrm. rewrite dInt16_eInt16 by assumption.
  destruct (Z.eqb_spec n expected); cbn [negb]; eexists; split;
    try reflexivity; split; intros; congruence.
Qed.

Lemma NumPrm_checks_witness :
  exists err : option error,
    NumPrm (NewDecoder (le_bytes 2 2 ++ [x03])) 2 = (NewDecoder [x03], err) /\
    (err = None <-> 2 = 2).
Proof.
  apply (NumPrm_checks 2 2 [x03]). unfold in_signed. cbn. lia.
Defined.

Lemma le_value_rev_rev (bs : list byte) : le_value (rev (rev bs)) = le_value bs.
Proof. rewrite rev_involutive. reflexivity. Qed.

(** [bigUint32] reads the value behind a size byte of 4, most significant
    byte first; behind any other size byte it reads nothing more and
    returns an error. *)
Theorem bigUint32_reads (size v : Z) (rest : list byte) :
  0 <= size < 256 -> 0 <= v < 2 ^ 32 ->
  bigUint32 (NewDecoder (byte_of_Z size :: rev (le_bytes 4 v) ++ rest))
  = if size =? 4
    then (NewDecoder rest, (v, None))
    else (NewDecoder (rev (le_bytes 4 v) ++ rest),
          (0, Some ("invalid auth uint32 size " ++ fmt_d size
                    ++ " - expected " ++ fmt_d 4)%string)).
Proof.
  intros Hs Hv. unfold bigUint32. rewrite dByte_cons, Z.mod_small by lia.
  unfold IntegerFieldSize. destruct (Z.eqb_spec size 4); cbn [negb];
    [|reflexivity].
  unfold dUint32BigEndian.
  replace 4%nat with (List.length (rev (le_bytes 4 v)))
    by (rewrite length_rev; apply le_bytes_length).
  rewrite readFull_app, le_value_rev_rev, le_value_le_bytes.
  change (8 * Z.of_nat 4) with 32. rewrite Z.mod_small by assumption.
  reflexivity.
Qed.

Lemma bigUint32_reads_witness :
  bigUint32 (NewDecoder (byte_of_Z 4 :: rev (le_bytes 4 15000) ++ []))
  = if 4 =? 4
    then (NewDecoder [], (15000, None))
    else (NewDecoder (rev (le_bytes 4 15000) ++ []),
          (0, Some ("invalid auth uint32 size " ++ fmt_d 4
                    ++ " - expected " ++ fmt_d 4)%string)).
Proof. apply (bigUint32_reads 4 15000 []); lia. Defined.

End AuthDecoderFacts.

(** ** Connection attributes: what every series of setter calls keeps *)

Module ConnAttrsOpsFacts.
Import GoInt ConnAttrs ConnAttrsOps.

Section Dfv.
Variable IsSupportedDfv : Z -> bool.

Lemma call_bounded (a : connAttrs) (c : setter) :
  bounded a -> bounded (call IsSupportedDfv a c).
Proof.
  unfold bounded, MaxInt32. intros (Ht & Hb & Hf & Hl).
  destruct c; cbn [call]; try (cbn; repeat split; lia).
  - unfold setTimeout, _setTimeout. cbn. change minTimeout with 0.
    destruct (Z.ltb_spec v 0); repeat split; lia.
  - unfold setBulkSize, _setBulkSize. cbn.
    change minBulkSize with 1. change maxBulkSize with 2147483647.
    destruct (Z.ltb_spec v 1); [repeat split; lia|].
    destruct (Z.ltb_spec 2147483647 v); repeat split; lia.
  - unfold setFetchSize, _setFetchSize. cbn. change minFetchSize with 1.
    destruct (Z.ltb_spec v 1); repeat split; lia.
  - unfold setLobChunkSize. cbn.
    change minLobChunkSize with 128. change maxLobChunkSize with 16384.
    destruct (Z.ltb_spec v 128); [repeat split; lia|].
    destruct (Z.ltb_spec 16384 v); repeat split; lia.
Qed.

(** From the defaults, whatever setters are called with whatever values
    and in whatever order, the timeout stays non-negative, the bulk size
    within 1 and 2^31-1, the fetch size at least 1 and the LOB chunk size
    within 128 and 16384. *)
Theorem setters_keep_bounds (name : string) (cs : list setter) :
  bounded (calls IsSupportedDfv (newConnAttrs name) cs).
Proof.
  unfold calls.
  assert (G : forall a, bounded a -> bounded (fold_left (call IsSupportedDfv) cs a)).
  { induction cs as [|c cs IH]; intros a H; [exact H|].
    cbn [fold_left]. apply IH, call_bounded, H. }
  apply G. unfold bounded. repeat split; vm_compute; discriminate.
Qed.

Lemma call_dfv (a : connAttrs) (c : setter) :
  IsSupportedDfv defaultDfv = true ->
  IsSupportedDfv (_dfv a) = true ->
  IsSupportedDfv (_dfv (call IsSupportedDfv a c)) = true.
Proof.
  intros Hd Ha. destruct c; cbn [call]; try exact Ha.
  - unfold setDfv. cbn. destruct (IsSupportedDfv v) eqn:E; cbn [negb]; assumption.
Qed.

(** When the default level 8 is a supported one, the level stored is
    always a supported one. *)
Theorem dfv_stays_supported (name : string) (cs : list setter) :
  IsSupportedDfv 8 = true ->
  IsSupportedDfv (_dfv (calls IsSupportedDfv (newConnAttrs name) cs)) = true.
Proof.
  intros Hd. unfold calls.
  assert (G : forall a, IsSupportedDfv (_dfv a) = true ->
                        IsSupportedDfv (_dfv (fold_left (call IsSupportedDfv) cs a)) = true).
  { induction cs as [|c cs IH]; intros a H; [exact H|].
    cbn [fold_left]. apply IH, call_dfv; assumption. }
  apply G. exact Hd.
Qed.

End Dfv.

(** A table of supported levels for the example below. *)
Definition sampleSupportedDfv (dfv : Z) : bool :=
  existsb (Z.eqb dfv) [1; 4; 6; 8].

Lemma dfv_stays_supported_witness :
  sampleSupportedDfv
    (_dfv (calls sampleSupportedDfv (newConnAttrs "app")
                 [SetDfv 4; SetBulkSize 0; SetDfv 5])) = true.
Proof.
  apply (dfv_stays_supported sampleSupportedDfv "app"
           [SetDfv 4; SetBulkSize 0; SetDfv 5]).
  reflexivity.
Defined.

End ConnAttrsOpsFacts.

(** ** The bulk buffer of a statement *)

Module StmtFacts.
Import GoInt GoIntFacts Exec Stmt.

Section Stmt.
Variable arg : Type.
Variable W : Type.
Variable exec : W -> list arg -> W * outcome (option Result * option error).
Variable newExecManyVariant : arg -> execManyer arg.
Variable numField : Z.

Let ExecContext := ExecContext arg W exec newExecManyVariant numField.
Let feed := feed arg W exec newExecManyVariant numField.
Let isRow := isRow arg numField.

Definition noRows : outcome (option Result * option error) :=
  Ret (Some ResultNoRows, None).

Lemma int64_succ (n : Z) : 0 <= n < MaxInt64 -> int64 (n + 1) = n + 1.
Proof.
  unfold MaxInt64. intros H. apply wrap_id; [lia|].
  unfold in_signed. change (2 ^ (64 - 1)) with 9223372036854775808. lia.
Qed.



(** The row that brings the buffer to the bulk size sends the whole
    buffer, that row last, in one execute, and leaves the buffer empty. *)
Theorem bulk_size_flushes (s : stmt arg) (w : W) (row : list arg) :
  bulk s = true -> isRow row ->
  0 <= numBulk s < MaxInt64 -> bulkSize s <= numBulk s + 1 ->
  ExecContext s w row
  = (mkStmt true false (many s) (bulkSize s) 0 [],
     fst (exec w (nvargs s ++ row)), snd (exec w (nvargs s ++ row))).
Proof.
  intros Hb [Hne Hlen] H0 Hn. unfold ExecContext, Stmt.ExecContext.
  rewrite Hb. fold (len arg row). rewrite Hlen, Z.eqb_refl.
  rewrite andb_false_r. unfold execBulk. destruct row as [|a row]; [contradiction|].
  cbn [bulk Stmt.flush many bulkSize numBulk nvargs].
  rewrite int64_succ by lia.
  destruct (Z.leb_spec (bulkSize s) (numBulk s + 1)); [|lia].
  destruct (Z.eqb_spec (numBulk s + 1) 0); [lia|]. cbn [negb orb].
  destruct (exec w (nvargs s ++ a :: row)). reflexivity.
Qed.

(** A call without arguments flushes: what is buffered goes out in one
    execute and the buffer is empty afterwards; with nothing buffered,
    nothing is executed. *)
Theorem bulk_flush_call (s : stmt arg) (w : W) :
  bulk s = true ->
  ExecContext s w []
  = if numBulk s =? 0
    then (mkStmt true false (many s) (bulkSize s) (numBulk s) (nvargs s), w, noRows)
    else (mkStmt true false (many s) (bulkSize s) 0 [],
          fst (exec w (nvargs s)), snd (exec w (nvargs s))).
Proof.
  intros Hb. unfold ExecContext, Stmt.ExecContext. rewrite Hb.
  cbn [List.length Z.of_nat Z.eqb negb andb]. unfold execBulk.
  cbn [bulk Stmt.flush many bulkSize numBulk nvargs negb orb].
  destruct (numBulk s =? 0); [reflexivity|].
  destruct (exec w (nvargs s)). reflexivity.
Qed.

(** In bulk mode a call with arguments, but not one for each field, is
    refused: nothing is buffered and nothing is executed. *)
Theorem bulk_wrong_count (s : stmt arg) (w : W) (args : list arg) :
  bulk s = true -> args <> [] -> len arg args <> numField ->
  ExecContext s w args
  = (mkStmt true false (many s) (bulkSize s) (numBulk s) (nvargs s), w,
     Ret (None, Some (invalidNumberOfArguments numField (len arg args)))).
Proof.
  intros Hb Hne Hlen. unfold ExecContext, Stmt.ExecContext. rewrite Hb.
  fold (len arg args).
  destruct (Z.eqb_spec (len arg args) 0) as [E|_].
  - destruct args; [contradiction | unfold len in E; cbn in E; lia].
  - destruct (Z.eqb_spec (len arg args) numField); [contradiction|].
    reflexivity.
Qed.

End Stmt.

(** Witnesses: a statement over two fields with a bulk size of three,
    against the scripted server. *)
Definition bulkStmt (numBulk : Z) (buffer : list sarg) : stmt sarg :=
  mkStmt true false false 3 numBulk buffer.

Definition noVariant (a : sarg) : execManyer sarg :=
  mkExecManyer 0 (fun _ _ => inr []).


Lemma bulk_size_flushes_witness :
  Stmt.ExecContext sarg (server sarg) serve_stmt_exec noVariant 2
    (bulkStmt 2 [PlainArg 1; PlainArg 2; PlainArg 3; PlainArg 4])
    (mkServer [ok 3] []) [PlainArg 5; PlainArg 6]
  = (mkStmt true false false 3 0 [],
     mkServer [] [[PlainArg 1; PlainArg 2; PlainArg 3; PlainArg 4;
                   PlainArg 5; PlainArg 6]],
     Ret (ok 3)).
Proof.
  apply (bulk_size_flushes sarg (server sarg) serve_stmt_exec noVariant 2
           (bulkStmt 2 [PlainArg 1; PlainArg 2; PlainArg 3; PlainArg 4])
           (mkServer [ok 3] []) [PlainArg 5; PlainArg 6]).
  - reflexivity.
  - split; [discriminate | reflexivity].
  - unfold MaxInt64. cbn. lia.
  - cbn. lia.
Defined.

Lemma bulk_flush_call_witness :
  Stmt.ExecContext sarg (server sarg) serve_stmt_exec noVariant 2
    (bulkStmt 1 [PlainArg 1; PlainArg 2]) (mkServer [ok 1] []) []
  = (mkStmt true false false 3 0 [],
     mkServer [] [[PlainArg 1; PlainArg 2]], Ret (ok 1)).
Proof.
  apply (bulk_flush_call sarg (server sarg) serve_stmt_exec noVariant 2
           (bulkStmt 1 [PlainArg 1; PlainArg 2]) (mkServer [ok 1] [])).
  reflexivity.
Defined.

Lemma bulk_wrong_count_witness :
  Stmt.ExecContext sarg (server sarg) serve_stmt_exec noVariant 2
    (bulkStmt 1 [PlainArg 1; PlainArg 2]) (mkServer [ok 1] []) [PlainArg 3]
  = (mkStmt true false false 3 1 [PlainArg 1; PlainArg 2], mkServer [ok 1] [],
     Ret (None, Some (invalidNumberOfArguments 2 1))).
Proof.
  apply (bulk_wrong_count sarg (server sarg) serve_stmt_exec noVariant 2
           (bulkStmt 1 [PlainArg 1; PlainArg 2]) (mkServer [ok 1] [])
           [PlainArg 3]).
  - reflexivity.
  - discriminate.
  - cbn. lia.
Defined.

End StmtFacts.

(** ** The end of a transaction *)

Module TxFacts.
Import ConnLock DbConn Tx.

Section Tx.
Variable W : Type.
Variable _commit : W -> W * option error.
Variable _rollback : W -> W * option error.

Let close := close W _commit _rollback.



End Tx.



End TxFacts.

(** ** The first LOB chunks, and the split of a bulk execute *)

Module ExecSplitFacts.
Import GoInt Exec.

(** *** _fetchFirstLobChunk *)

Section Fetch.
Variable arg lob W : Type.
Variable asLob : arg -> option lob.
Variable FetchNext : W -> lob -> Z -> W * (bool * option error).
Variable lobChunkSize : Z.
(** Whether the first chunk of a LOB is all of it. *)
Variable lastOf : lob -> bool.

Definition needsMore (a : arg) : bool :=
  match asLob a with
  | Some d => negb (lastOf d)
  | None => false
  end.

Hypothesis FetchNext_last :
  forall (w : W) (d : lob), snd (FetchNext w d lobChunkSize) = (lastOf d, None).

Lemma fetchFirstLobChunkFrom_hasNext (nvargs : list arg) (w : W) (h : bool) :
  snd (fetchFirstLobChunkFrom arg lob W asLob FetchNext lobChunkSize w nvargs h)
  = (h || existsb needsMore nvargs, None).
Proof.
  revert w h. induction nvargs as [|a rest IH]; intros w h.
  - cbn. rewrite orb_false_r. reflexivity.
  - cbn [fetchFirstLobChunkFrom existsb]. unfold needsMore at 1.
    destruct (asLob a) as [d|].
    + pose proof (FetchNext_last w d) as F.
      destruct (FetchNext w d lobChunkSize) as [w1 [l e]]. cbn in F.
      injection F as -> ->. rewrite IH.
      destruct (lastOf d), h; reflexivity.
    + rewrite IH. reflexivity.
Qed.

(** When no reader fails, [_fetchFirstLobChunk] reports further data
    exactly when one of the LOB arguments has more than its first chunk;
    arguments that are not LOBs play no part. *)
Theorem fetchFirstLobChunk_hasNext (nvargs : list arg) (w : W) :
  snd (_fetchFirstLobChunk arg lob W asLob FetchNext lobChunkSize w nvargs)
  = (existsb needsMore nvargs, None).
Proof. unfold _fetchFirstLobChunk. apply fetchFirstLobChunkFrom_hasNext. Qed.

End Fetch.

Lemma fetchFirstLobChunk_hasNext_witness :
  snd (_fetchFirstLobChunk sarg bool (server sarg) sarg_asLob sarg_FetchNext 8192
         (mkServer [] []) [PlainArg 1; LobArg 1 true; LobArg 2 false])
  = (existsb (needsMore sarg bool sarg_asLob (fun complete => complete))
             [PlainArg 1; LobArg 1 true; LobArg 2 false], None).
Proof.
  apply (fetchFirstLobChunk_hasNext sarg bool (server sarg) sarg_asLob
           sarg_FetchNext 8192 (fun complete => complete)).
  reflexivity.
Defined.

(** *** Slices *)





Lemma slice_empty {A : Type} (l : list A) (a : Z) : slice l a a = [].
Proof. unfold slice. rewrite Z.sub_diag. reflexivity. Qed.

(** *** The split against the scripted server *)



Section Split.
Variable lobChunkSize numColumns : Z.
Variable nvargs : list sarg.
Variable commit : bool.
Variable k : Z.

Hypothesis numColumns_pos : 1 <= numColumns.
Hypothesis rows : Z.of_nat (List.length nvargs) = k * numColumns.

Let loop :=
  execBulkLoop sarg bool (server sarg) sarg_asLob sarg_FetchNext serve_exec
               lobChunkSize numColumns nvargs commit.





End Split.


End ExecSplitFacts.

(** ** LOB download: the ends of the loop *)

Module LobLoopFacts.
Import GoInt GoIntFacts Lob LobFacts.

Section Scripted.
Variable lobChunkSize : Z.
Variable descr : LobOutDescr.t.

Let run := _decodeLobs server collect serve lobChunkSize countBytes descr.


(** A reply for another locator ends the download with an error: the
    request was sent, and the bytes of that reply are not written. *)
Theorem foreign_locator_is_an_error (fuel : nat) (w : server)
  (rp : ReadLobReply.t) (tail : list (error + option ReadLobReply.t)) :
  LobOutDescr.lastData descr = false ->
  replies w = inr (Some rp) :: tail ->
  ReadLobReply.ID rp <> LobOutDescr.ID descr ->
  exists rq : ReadLobRequest.t,
    run (S fuel) w
    = (mkServer tail (requests w ++ [rq]) (output w ++ LobOutDescr.B descr),
       Some (Ret (Some (invalidLocator (ReadLobReply.ID rp) (LobOutDescr.ID descr))))) /\
    ReadLobRequest.ID rq = LobOutDescr.ID descr.
Proof.
  intros He Hr Hid. unfold run, _decodeLobs. cbn [collect countBytes]. rewrite He.
  cbn [decodeLoop]. cbv zeta. unfold serve at 1. cbn [replies requests output].
  rewrite Hr. cbn [ReadLobRequest.ID].
  destruct (Z.eqb_spec (ReadLobReply.ID rp) (LobOutDescr.ID descr)); [contradiction|].
  cbn [negb]. eexists. split; reflexivity.
Qed.

(** An exchange that fails ends the download with its error; what was
    written before stays written. *)
Theorem failed_exchange_is_returned (fuel : nat) (w : server) (e : error)
  (tail : list (error + option ReadLobReply.t)) :
  LobOutDescr.lastData descr = false ->
  replies w = inl e :: tail ->
  exists rq : ReadLobRequest.t,
    run (S fuel) w
    = (mkServer tail (requests w ++ [rq]) (output w ++ LobOutDescr.B descr),
       Some (Ret (Some e))).
Proof.
  intros He Hr. unfold run, _decodeLobs. cbn [collect countBytes]. rewrite He.
  cbn [decodeLoop]. cbv zeta. unfold serve at 1. cbn [replies requests output].
  rewrite Hr. eexists. reflexivity.
Qed.

End Scripted.

Definition partLob : LobOutDescr.t := LobOutDescr.mk 9 false false 5 [x61; x62; x63].


Lemma foreign_locator_is_an_error_witness :
  exists rq : ReadLobRequest.t,
    _decodeLobs server collect serve 128 countBytes partLob 1
                (mkServer [inr (Some (ReadLobReply.mk 8 true [x64; x65]))] [] [])
    = (mkServer [] ([] ++ [rq]) ([] ++ [x61; x62; x63]),
       Some (Ret (Some (invalidLocator 8 9)))) /\
    ReadLobRequest.ID rq = 9.
Proof.
  apply (foreign_locator_is_an_error 128 partLob 0
           (mkServer [inr (Some (ReadLobReply.mk 8 true [x64; x65]))] [] [])
           (ReadLobReply.mk 8 true [x64; x65]) []).
  - reflexivity.
  - reflexivity.
  - cbn. lia.
Defined.

Lemma failed_exchange_is_returned_witness :
  exists rq : ReadLobRequest.t,
    _decodeLobs server collect serve 128 countBytes partLob 1
                (mkServer [inl DbConn.ErrBadConn] [] [])
    = (mkServer [] ([] ++ [rq]) ([] ++ [x61; x62; x63]),
       Some (Ret (Some DbConn.ErrBadConn))).
Proof.
  apply (failed_exchange_is_returned 128 partLob 0
           (mkServer [inl DbConn.ErrBadConn] [] []) DbConn.ErrBadConn []);
    reflexivity.
Defined.

(** The download of [partLob] in two further chunks. *)
Lemma decodeLobs_requests_witness :
  _decodeLobs server collect serve 128 countBytes partLob (S 1 + 0)
    (mkServer (map (chunkReply partLob false) [[x64]]
               ++ [chunkReply partLob true [x65]]) [] [])
  = (mkServer []
       ([] ++ codeRequests 128 partLob 0 (int64 (len [x61; x62; x63]))
                ([[x64]] ++ [[x65]]))
       ([] ++ [x61; x62; x63] ++ concat [[x64]] ++ [x65]),
     Some (Ret None)).
Proof.
  apply (decodeLobs_requests 128 partLob [[x64]] [x65] 0
           (mkServer (map (chunkReply partLob false) [[x64]]
                      ++ [chunkReply partLob true [x65]]) [] []));
    reflexivity.
Defined.

End LobLoopFacts.

(** ** What a parsed DSN holds *)

Module DsnResultFacts.
Import Dsn DsnFacts.

Definition isTLSKey (k : string) : bool :=
  (k =? DSNTLSServerName)%string || (k =? DSNTLSInsecureSkipVerify)%string
  || (k =? DSNTLSRootCAFile)%string.

Definition singleValued (k : string) : bool :=
  (k =? DSNDefaultSchema)%string || (k =? DSNTimeout)%string
  || (k =? DSNPingInterval)%string || (k =? DSNTLSServerName)%string.

Ltac split_keys k :=
  unfold parseEntry;
  destruct (String.eqb_spec k DSNDefaultSchema);
  [|destruct (String.eqb_spec k DSNTimeout);
    [|destruct (String.eqb_spec k DSNPingInterval);
      [|destruct (String.eqb_spec k DSNTLSServerName);
        [|destruct (String.eqb_spec k DSNTLSInsecureSkipVerify);
          [|destruct (String.eqb_spec k DSNTLSRootCAFile)]]]]].

(** What one accepted query parameter leaves alone, and when it creates
    the TLS parameters. *)
Lemma parseEntry_keeps (d d' : DSN) (k : string) (v : list string) :
  parseEntry d k v = inr d' ->
  host d' = host d /\ username d' = username d /\ password d' = password d /\
  recognised k = true /\
  (isTLSKey k = true -> tls d' <> None) /\
  (isTLSKey k = false -> tls d' = tls d).
Proof.
  intros H. revert H. split_keys k; subst; intros H.
  - destruct v as [|v0 [|]]; try discriminate. injection H as <-.
    repeat split; try reflexivity. intros; discriminate.
  - destruct v as [|v0 [|]]; try discriminate.
    destruct (Atoi v0); try discriminate. injection H as <-.
    repeat split; try reflexivity. intros; discriminate.
  - destruct v as [|v0 [|]]; try discriminate.
    destruct (Atoi v0); try discriminate. injection H as <-.
    repeat split; try reflexivity. intros; discriminate.
  - destruct v as [|v0 [|]]; try discriminate. injection H as <-.
    repeat split; try reflexivity; intros; discriminate.
  - destruct (1 <? nlen v)%Z; try discriminate.
    destruct v as [|v0 ?]; [|destruct (negb (v0 =? "")%string);
                               [destruct (ParseBool v0)|]];
      try discriminate; injection H as <-;
      repeat split; try reflexivity; intros; discriminate.
  - destruct v; try discriminate. injection H as <-.
    repeat split; try reflexivity; intros; discriminate.
  - discriminate.
Qed.

Lemma parseQuery_keeps (q : list (string * list string)) (d d' : DSN) :
  parseQuery q d = inr d' ->
  host d' = host d /\ username d' = username d /\ password d' = password d /\
  forallb recognised (keys q) = true /\
  (existsb isTLSKey (keys q) = true -> tls d' <> None) /\
  (existsb isTLSKey (keys q) = false -> tls d' = tls d).
Proof.
  revert d. induction q as [|[k v] q IH]; intros d H.
  - cbn in H. injection H as <-. repeat split; try reflexivity. discriminate.
  - cbn [parseQuery] in H. destruct (parseEntry d k v) as [e|d1] eqn:E; [discriminate|].
    apply parseEntry_keeps in E. destruct E as (E1 & E2 & E3 & E4 & E5 & E6).
    apply IH in H. destruct H as (H1 & H2 & H3 & H4 & H5 & H6).
    cbn [keys map fst forallb existsb]. fold (keys q).
    rewrite E4, H4. repeat split; try congruence.
    + destruct (isTLSKey k) eqn:Ek; cbn [orb].
      * intros _. destruct (existsb isTLSKey (keys q)) eqn:Eq.
        -- apply H5. reflexivity.
        -- rewrite H6 by reflexivity. apply E5. reflexivity.
      * intros Hq. apply H5. exact Hq.
    + destruct (isTLSKey k) eqn:Ek; cbn [orb]; [discriminate|].
      intros Hq. rewrite H6 by exact Hq. apply E6. reflexivity.
Qed.

(** A DSN is produced only from a string that [url.Parse] accepts and
    whose query keys are all recognised; its host, user name and password
    are those of the URL, untouched by the query; and it has TLS parameters
    exactly when the query has one of the three TLS keys. *)
Theorem parseDSN_result
  (url_Parse : string -> urlError + Url) (str : string) (d : DSN) :
  parseDSN url_Parse str = inr d ->
  exists u : Url,
    url_Parse str = inr u /\
    host d = Host u /\
    username d = username (fromUrl u) /\ password d = password (fromUrl u) /\
    forallb recognised (keys (Query u)) = true /\
    (tls d <> None <-> existsb isTLSKey (keys (Query u)) = true).
Proof.
  unfold parseDSN. destruct (str =? "")%string; [discriminate|].
  destruct (url_Parse str) as [e|u]; [discriminate|]. intros H.
  apply parseQuery_keeps in H. destruct H as (H1 & H2 & H3 & H4 & H5 & H6).
  exists u. repeat split; try assumption.
  - rewrite H1. unfold fromUrl. destruct (User u); reflexivity.
  - intros Ht. destruct (existsb isTLSKey (keys (Query u))); [reflexivity|].
    exfalso. apply Ht. rewrite H6 by reflexivity.
    unfold fromUrl. destruct (User u); reflexivity.
Qed.

(** What [url.Parse] returns for
    [hdb://u:p@h:39013?TLSRootCAFile=trust.pem&TLSServerName=hostname]. *)
Definition tlsDSN : string :=
  "hdb://u:p@h:39013?TLSRootCAFile=trust.pem&TLSServerName=hostname".
Definition tlsUrl : Url :=
  mkUrl "h:39013" (Some (mkUserinfo "u" "p" true))
        [("TLSRootCAFile", ["trust.pem"]); ("TLSServerName", ["hostname"])].
Definition tls_url_Parse (str : string) : urlError + Url :=
  if (str =? tlsDSN)%string then inr tlsUrl
  else inl (mkUrlError "parse" str "outside the sample").
Definition tlsParsed : DSN :=
  mkDSN "h:39013" "u" "p" "" 0 0 (Some (mkTLSPrms "hostname" false ["trust.pem"])).

Lemma parseDSN_result_witness :
  exists u : Url,
    tls_url_Parse tlsDSN = inr u /\
    host tlsParsed = Host u /\
    username tlsParsed = username (fromUrl u) /\
    password tlsParsed = password (fromUrl u) /\
    forallb recognised (keys (Query u)) = true /\
    (tls tlsParsed <> None <-> existsb isTLSKey (keys (Query u)) = true).
Proof.
  apply (parseDSN_result tls_url_Parse tlsDSN tlsParsed). reflexivity.
Defined.

(** The four parameters that take exactly one value are refused with any
    other number of values, before the value is looked at. *)
Theorem single_valued_parameters (d : DSN) (k : string) (v : list string) :
  singleValued k = true -> List.length v <> 1%nat ->
  parseEntry d k v = inl (invalidNumberOfParametersError k (nlen v) 1).
Proof.
  unfold singleValued. intros Hk Hv.
  assert (V : match v with [_] => False | _ => True end).
  { destruct v as [|? [|]]; cbn in *; auto. }
  split_keys k; subst; try (destruct v as [|? [|]]; [reflexivity | contradiction | reflexivity]).
  - destruct (String.eqb_spec DSNTLSInsecureSkipVerify DSNDefaultSchema); [contradiction|].
    cbn in Hk. discriminate.
  - cbn in Hk. discriminate.
  - repeat match goal with
           | H : k <> _ |- _ => apply String.eqb_neq in H; rewrite H in Hk
           end.
    discriminate.
Qed.

Lemma single_valued_parameters_witness :
  parseEntry (mkDSN "h" "" "" "" 0 0 None) "timeout" ["1"; "2"]
  = inl (invalidNumberOfParametersError "timeout" (nlen ["1"; "2"]) 1).
Proof.
  apply (single_valued_parameters (mkDSN "h" "" "" "" 0 0 None) "timeout"
           ["1"; "2"]%string).
  - reflexivity.
  - cbn. lia.
Defined.

End DsnResultFacts.

(** ** I/O errors and the connection lock over time *)

Module ConnStateFacts.
Import ConnLock DbConn ConnLockFacts.

(** A cancelled connection has its last error set: kept by every step. *)
Definition cancelRecorded (d : dbConn) : Prop :=
  cancelled d = 1 -> lastError d <> None.

Lemma run1_cancelRecorded (c : conn) (st : step) :
  cancelRecorded (db c) -> cancelRecorded (db (run1 c st)).
Proof.
  unfold cancelRecorded. intros H.
  destruct st as [n s|b s| |e|e|l]; cbn [run1 db]; try exact H.
  - unfold Read. destruct (cancelled (db c) =? 1); [exact H|].
    destruct (deadlineErr s); [cbn; discriminate|].
    destruct (ioErr s); cbn; [discriminate | exact H].
  - unfold Write. destruct (cancelled (db c) =? 1); [exact H|].
    destruct (deadlineErr s); [cbn; discriminate|].
    destruct (ioErr s); cbn; [discriminate | exact H].
  - cbn. discriminate.
  - cbn. discriminate.
Qed.

Lemma run_cancelRecorded (sts : list step) (c : conn) :
  cancelRecorded (db c) -> cancelRecorded (db (run c sts)).
Proof.
  revert c. induction sts as [|st sts IH]; intros c H; [exact H|].
  apply (IH (run1 c st)), run1_cancelRecorded, H.
Qed.

(** On a connection that started out not cancelled, whatever happened
    since: a [Read] or [Write] that reports an error reports [ErrBadConn],
    never the error of the socket, and the connection is bad from then on;
    one that reports none leaves the last error as it was. *)
Theorem io_error_marks_bad
  (c0 : conn) (sts : list step) (n : Z) (b : list byte) (s : sockReply) :
  cancelled (db c0) <> 1 ->
  let c := run c0 sts in
  let after (r : dbConn * (Z * option error)) : Prop :=
    match snd (snd r) with
    | Some e =>
        e = ErrBadConn /\
        isBad (mkConn (lk c) (fst r) (connLastError c) (inTx c)) = true
    | None => lastError (fst r) = lastError (db c)
    end in
  after (Read (db c) n s) /\ after (Write (db c) b s).
Proof.
  intros H0 c after.
  assert (I : cancelRecorded (db c)).
  { apply run_cancelRecorded. unfold cancelRecorded. intros; contradiction. }
  unfold cancelRecorded in I. subst after. cbv beta.
  unfold Read, Write, isBad. split.
  - destruct (Z.eqb_spec (cancelled (db c)) 1) as [E|E]; cbn.
    + split; [reflexivity|]. destruct (lastError (db c)); [reflexivity|].
      exfalso. apply (I E). reflexivity.
    + destruct (deadlineErr s); [cbn; auto|].
      destruct (ioErr s); cbn; auto.
  - destruct (Z.eqb_spec (cancelled (db c)) 1) as [E|E]; cbn.
    + split; [reflexivity|]. destruct (lastError (db c)); [reflexivity|].
      exfalso. apply (I E). reflexivity.
    + destruct (deadlineErr s); [cbn; auto|].
      destruct (ioErr s); cbn; auto.
Qed.

Definition freshConn : conn :=
  mkConn (mkConnLock 0 false) (mkDbConn 0 0 None false []) None false.

Lemma io_error_marks_bad_witness :
  let c := run freshConn [DoRead 4 (mkSockReply None 4 None)] in
  let r := Read (db c) 4 (mkSockReply None 0 (Some "connection reset")) in
  snd (snd r) = Some ErrBadConn /\
  isBad (mkConn (lk c) (fst r) (connLastError c) (inTx c)) = true.
Proof.
  pose proof (io_error_marks_bad freshConn [DoRead 4 (mkSockReply None 4 None)]
                4 [] (mkSockReply None 0 (Some "connection reset"%string))) as H.
  cbv zeta in H. destruct H as [H _]; [cbn; lia|].
  cbn in H |- *. destruct H as [_ H]. split; [reflexivity | exact H].
Defined.

(** *** The lock over a series of calls *)

Inductive lockCall : Type :=
| CallTryLock (reason : Z)
| CallLock
| CallUnlock.

(** A call that returns moves the lock on; one that waits or stops the
    process leaves it. *)
Definition lockStep (l : connLock) (c : lockCall) : connLock :=
  match c with
  | CallTryLock reason =>
      match tryLock l reason with Returns l' _ => l' | _ => l end
  | CallLock =>
      match lock l with Returns l' _ => l' | _ => l end
  | CallUnlock =>
      match unlock l with Ret l' => l' | Panic _ => l end
  end.

Definition lockRun (l : connLock) (cs : list lockCall) : connLock :=
  fold_left lockStep cs l.

Definition reasonOnlyWhileHeld (l : connLock) : Prop :=
  connMu l = false -> lockReason l = 0.

Lemma lockStep_keeps (l : connLock) (c : lockCall) :
  reasonOnlyWhileHeld l -> reasonOnlyWhileHeld (lockStep l c).
Proof.
  unfold reasonOnlyWhileHeld. intros H. destruct c as [reason| |]; cbn [lockStep].
  - unfold tryLock. destruct (lockReason l =? lrNestedQuery); [exact H|].
    destruct (connMu l) eqn:E; [rewrite E; exact H|]. cbn. discriminate.
  - unfold lock. destruct (connMu l) eqn:E; [rewrite E; exact H|].
    cbn. discriminate.
  - unfold unlock. destruct (connMu l) eqn:E; [reflexivity|].
    rewrite E. exact H.
Qed.

(** From a free lock, whatever series of [tryLock], [lock] and [unlock]
    calls is made: a lock that is not held has the reason 0, so the
    nested-query error is only ever returned while a query holds the lock,
    and a [tryLock] on a lock that is not held always succeeds. *)
Theorem free_lock_has_no_reason (cs : list lockCall) (reason : Z) :
  let l := lockRun (mkConnLock 0 false) cs in
  (connMu l = false -> lockReason l = 0) /\
  (tryLock l reason = Returns l (Some ErrNestedQuery) -> connMu l = true) /\
  (connMu l = false -> tryLock l reason = Returns (mkConnLock reason true) None).
Proof.
  intros l.
  assert (I : reasonOnlyWhileHeld l).
  { unfold l, lockRun.
    assert (G : forall l0, reasonOnlyWhileHeld l0 ->
                           reasonOnlyWhileHeld (fold_left lockStep cs l0)).
    { induction cs as [|c cs IH]; intros l0 H; [exact H|].
      cbn [fold_left]. apply IH, lockStep_keeps, H. }
    apply G. intros _. reflexivity. }
  unfold reasonOnlyWhileHeld in I. split; [exact I|]. split.
  - intros H. destruct (connMu l) eqn:E; [reflexivity|].
    unfold tryLock in H. rewrite (I eq_refl) in H. cbn in H. rewrite E in H.
    discriminate.
  - intros E. unfold tryLock. rewrite (I E), E. reflexivity.
Qed.

Lemma free_lock_has_no_reason_witness :
  let l := lockRun (mkConnLock 0 false) [CallTryLock 1; CallTryLock 0; CallUnlock] in
  lockReason l = 0 /\ tryLock l 1 = Returns (mkConnLock 1 true) None.
Proof.
  pose proof (free_lock_has_no_reason [CallTryLock 1; CallTryLock 0; CallUnlock] 1)
    as (H1 & _ & H3).
  split; [apply H1; reflexivity | apply H3; reflexivity].
Defined.

End ConnStateFacts.

(** ** Execute many: packages, conversion and the sum *)

Module ExecManyFacts.
Import GoInt GoIntFacts Exec ExecFacts ConnLock ConnStateFacts.


(** *** The conversion of the rows of a package *)

Section IntfList.
Variable arg row : Type.
Variable convertValue : row -> error + arg.

(** [fill] succeeds exactly when every row of the package converts, and
    then gives one argument for each row, in the order of the rows. *)
Theorem fillRows_converts_each_row (rows : list row) (l : list arg) :
  fillRows arg row convertValue rows = inr l
  <-> Forall2 (fun r a => convertValue r = inr a) rows l.
Proof.
  revert l. induction rows as [|r rows IH]; intros l; cbn [fillRows].
  - split.
    + intros H. injection H as <-. constructor.
    + intros H. inversion H. reflexivity.
  - destruct (convertValue r) as [e|a] eqn:E.
    + split; [discriminate|]. intros H. inversion H; subst. congruence.
    + destruct (fillRows arg row convertValue rows) as [e|l'] eqn:F.
      * split; [discriminate|]. intros H. inversion H as [|? ? ? l2 Ha Hl]; subst.
        apply IH in Hl. discriminate.
      * split.
        -- intros H. injection H as <-. constructor; [exact E|].
           apply IH. reflexivity.
        -- intros H. inversion H as [|? ? ? l2 Ha Hl]; subst.
           apply IH in Hl. congruence.
Qed.

(** The error of [fill] is the error of the first row that does not
    convert. *)
Theorem fillRows_first_error (rows : list row) (e : error) :
  fillRows arg row convertValue rows = inl e ->
  exists (before : list row) (r : row) (after : list row),
    rows = before ++ r :: after /\
    convertValue r = inl e /\
    exists l : list arg, fillRows arg row convertValue before = inr l.
Proof.
  induction rows as [|r rows IH]; cbn [fillRows]; [discriminate|].
  destruct (convertValue r) as [e1|a] eqn:E.
  - intros H. injection H as ->. exists [], r, rows.
    split; [reflexivity|]. split; [exact E|]. exists []. reflexivity.
  - destruct (fillRows arg row convertValue rows) as [e1|l'] eqn:F; [|discriminate].
    intros H. injection H as ->.
    destruct (IH eq_refl) as (before & r1 & after & -> & Hr & l & Hl).
    exists (r :: before), r1, after. split; [reflexivity|]. split; [exact Hr|].
    exists (a :: l). cbn [fillRows]. rewrite E, Hl. reflexivity.
Qed.

End IntfList.

Definition oddOnly (v : Z) : error + sarg :=
  if Z.odd v then inr (PlainArg v) else inl "even"%string.

Lemma fillRows_converts_each_row_witness :
  fillRows sarg Z oddOnly [1; 3] = inr [PlainArg 1; PlainArg 3].
Proof.
  apply (proj2 (fillRows_converts_each_row sarg Z oddOnly [1; 3]
                  [PlainArg 1; PlainArg 3])).
  repeat constructor.
Defined.

Lemma fillRows_first_error_witness :
  exists (before : list Z) (r : Z) (after : list Z),
    [1; 2; 4] = before ++ r :: after /\
    oddOnly r = inl "even"%string /\
    exists l : list sarg, fillRows sarg Z oddOnly before = inr l.
Proof.
  apply (fillRows_first_error sarg Z oddOnly [1; 2; 4] "even"%string).
  reflexivity.
Defined.

(** *** The sum, against the scripted server *)

Section Scripted.
Variable arg : Type.
Variable numField bulkSize : Z.
Variable variant : execManyer arg.
Variable pk : Z -> list arg.

Hypothesis bulkSize_pos : 1 <= bulkSize.
Hypothesis numField_nonneg : 0 <= numField.
Hypothesis numRow_nonneg : 0 <= numRow variant.


End Scripted.








End ExecManyFacts.

(** ** Parameter lists: the size announced is the size written *)

Module PrmsFacts.
Import GoInt Bytes Encoding Auth Prms.
Import GoIntFacts BytesFacts EncodingFacts OptTypeFacts AuthFacts.

(** Induction over an element and the elements nested in it. *)
Definition prm_nested_ind (P : prm -> Prop)
  (HB : forall b, P (PBytes b)) (HS : forall s, P (PString s))
  (HP : forall l, Forall P l -> P (PPrms l)) : forall e, P e :=
  fix IH (e : prm) : P e :=
    match e with
    | PBytes b => HB b
    | PString s => HS s
    | PPrms l =>
        HP l ((fix all (l : list prm) : Forall P l :=
                 match l with
                 | [] => Forall_nil P
                 | x :: l' => Forall_cons x (IH x) (all l')
                 end) l)
    end.

(** Whatever size [encode] accepts, it writes [fieldSize] bytes. *)
Lemma encode_writes_fieldSize (n : Z) (e e' : Encoder) :
  encode n e = (e', None) ->
  exists bs : list byte, e' = eBytes e bs /\ len bs = fieldSize n.
Proof.
  unfold encode, fieldSize, maxSubPrmsSize1ByteLen, MaxUint16.
  destruct (Z.leb_spec n 245); destruct (Z.ltb_spec 245 n); try lia.
  - intros E. injection E as <-. eexists. split; reflexivity.
  - destruct (Z.leb_spec n 65535); [|discriminate].
    intros E. injection E as <-. unfold eUint16BigEndian, eByte.
    rewrite eBytes_eBytes. eexists. split; reflexivity.
Qed.

Section Codec.
Variable VarBytesSize : Z -> Z.
Variable StringSize : list byte -> Z.
Variable LIBytes : Encoder -> list byte -> Encoder * option error.
Variable CESU8LIString : Encoder -> list byte -> Encoder * option error.

(** What the codec promises: a length-indicated value takes
    [VarBytesSize] of its length, and the CESU-8 string is measured by
    [StringSize]. *)
Hypothesis LIBytes_size :
  forall (enc enc' : Encoder) (b : list byte),
    LIBytes enc b = (enc', None) ->
    exists bs : list byte, enc' = eBytes enc bs /\ len bs = VarBytesSize (len b).
Hypothesis CESU8LIString_size :
  forall (enc enc' : Encoder) (s : list byte),
    CESU8LIString enc s = (enc', None) ->
    exists bs : list byte, enc' = eBytes enc bs /\ len bs = VarBytesSize (StringSize s).

Let elemSize := elemSize VarBytesSize StringSize.
Let encodeElem := encodeElem VarBytesSize StringSize LIBytes CESU8LIString.
Let encodeElems := encodeElems VarBytesSize StringSize LIBytes CESU8LIString.

Definition writes (e : prm) : Prop :=
  forall enc enc' : Encoder,
    encodeElem e enc = (enc', None) ->
    exists bs : list byte, enc' = eBytes enc bs /\ len bs = elemSize e.

Lemma sizes_from (l : list prm) (a : Z) :
  fold_left (fun size e => size + elemSize e) l a
  = a + fold_left (fun size e => size + elemSize e) l 0.
Proof.
  revert a. induction l as [|x l IH]; intros a; cbn [fold_left]; [lia|].
  rewrite IH, (IH (0 + elemSize x)). lia.
Qed.

Lemma len_app (a b : list byte) : len (a ++ b) = len a + len b.
Proof. unfold len. rewrite length_app. lia. Qed.

Lemma encodeElems_writes (l : list prm) :
  Forall writes l ->
  forall enc enc' : Encoder,
    encodeElems l enc = (enc', None) ->
    exists bs : list byte,
      enc' = eBytes enc bs /\
      len bs = fold_left (fun size e => size + elemSize e) l 0.
Proof.
  intros Hall. induction Hall as [|x l Hx Hl IH]; intros enc enc' Henc.
  - cbn in Henc. injection Henc as <-. exists []. split; [|reflexivity].
    unfold eBytes. rewrite app_nil_r. destruct enc; reflexivity.
  - unfold encodeElems in Henc. cbn [Prms.encodeElems] in Henc.
    fold encodeElem in Henc. fold encodeElems in Henc.
    destruct (encodeElem x enc) as [enc1 [err|]] eqn:E; [discriminate|].
    destruct (Hx enc enc1 E) as (bs1 & -> & L1).
    destruct (IH _ _ Henc) as (bs2 & -> & L2).
    exists (bs1 ++ bs2). split; [apply eBytes_eBytes|].
    cbn [fold_left]. rewrite len_app, L1, L2, (sizes_from l (0 + elemSize x)). lia.
Qed.

Lemma inner_elems (l : list prm) (enc : Encoder) :
  (fix elems (l : list prm) (enc : Encoder) : Encoder * option error :=
     match l with
     | [] => (enc, None)
     | x :: l' =>
         match encodeElem x enc with
         | (enc', Some err) => (enc', Some err)
         | (enc', None) => elems l' enc'
         end
     end) l enc
  = encodeElems l enc.
Proof.
  revert enc. induction l as [|x l IH]; intros enc; [reflexivity|].
  unfold encodeElems. cbn [Prms.encodeElems]. fold encodeElem.
  destruct (encodeElem x enc) as [enc1 [err|]]; [reflexivity|]. apply IH.
Qed.

Lemma encodeElem_writes (e : prm) : writes e.
Proof.
  induction e as [b|s|l IH] using prm_nested_ind; intros enc enc' H.
  - apply LIBytes_size. exact H.
  - apply CESU8LIString_size. exact H.
  - unfold encodeElem in H. cbn [Prms.encodeElem] in H.
    destruct (encode (Size VarBytesSize StringSize l) enc) as [enc1 [err|]] eqn:E;
      [discriminate|].
    destruct (MaxInt16 <? len l); [discriminate|].
    assert (H' : encodeElems l (eInt16 enc1 (int16 (len l))) = (enc', None))
      by (rewrite <- inner_elems; exact H).
    destruct (encode_writes_fieldSize _ _ _ E) as (bs1 & -> & L1).
    destruct (encodeElems_writes l IH _ _ H') as (bs2 & -> & L2).
    unfold eInt16. rewrite !eBytes_eBytes. eexists. split; [reflexivity|].
    rewrite !len_app, L1, L2.
    change (elemSize (PPrms l))
      with (Size VarBytesSize StringSize l + fieldSize (Size VarBytesSize StringSize l)).
    assert (S : Size VarBytesSize StringSize l
                = SmallintFieldSize + fold_left (fun size e => size + elemSize e) l 0)
      by (unfold Size; apply sizes_from).
    rewrite S.
    unfold len at 1. rewrite le_bytes_length. unfold SmallintFieldSize in *. lia.
Qed.

(** When [Encode] succeeds it has written exactly [Size()] bytes, nested
    lists and their size fields included. *)
Theorem Encode_writes_Size (prms : list prm) (enc enc' : Encoder) :
  Encode VarBytesSize StringSize LIBytes CESU8LIString prms enc = (enc', None) ->
  exists bs : list byte,
    enc' = eBytes enc bs /\ len bs = Size VarBytesSize StringSize prms.
Proof.
  unfold Encode. destruct (MaxInt16 <? len prms); [discriminate|]. intros H.
  fold encodeElems in H.
  destruct (encodeElems_writes prms) with (2 := H) as (bs & -> & L).
  { apply Forall_forall. intros e _. apply encodeElem_writes. }
  unfold eInt16. rewrite eBytes_eBytes. eexists. split; [reflexivity|].
  rewrite len_app, L. unfold Size. fold elemSize.
  rewrite (sizes_from prms SmallintFieldSize).
  unfold len at 1. rewrite le_bytes_length. unfold SmallintFieldSize. lia.
Qed.

End Codec.

(** A codec for short values: one byte for a length of at most 245, then
    the bytes. *)
Definition shortLI (enc : Encoder) (b : list byte) : Encoder * option error :=
  if len b <=? 245 then (eBytes enc (byte_of_Z (len b) :: b), None)
  else (enc, Some "longer than 245 bytes"%string).

Lemma shortLI_size (enc enc' : Encoder) (b : list byte) :
  shortLI enc b = (enc', None) ->
  exists bs : list byte, enc' = eBytes enc bs /\ len bs = len b + 1.
Proof.
  unfold shortLI. destruct (len b <=? 245); [|discriminate].
  intros H. injection H as <-. eexists. split; [reflexivity|].
  unfold len. cbn [List.length]. lia.
Qed.

(** The final request of SCRAMSHA256: user name, method and a nested list
    with the proof. *)
Definition scramFinal : list prm :=
  [PString [x75]; PBytes [x53; x43; x52; x41; x4d]; PPrms [PBytes [x01; x02; x03]]].

Lemma Encode_writes_Size_witness :
  exists bs : list byte,
    eBytes NewEncoder
      [x03; x00; x01; x75; x05; x53; x43; x52; x41; x4d;
       x06; x01; x00; x03; x01; x02; x03]
    = eBytes NewEncoder bs /\
    len bs = Size (fun n => n + 1) len scramFinal.
Proof.
  apply (Encode_writes_Size (fun n => n + 1) len shortLI shortLI
           shortLI_size shortLI_size scramFinal NewEncoder).
  reflexivity.
Defined.

End PrmsFacts.
